(** * Python-Canvas: a shallow embedding of [canvas.py] and its properties

    The module [canvas.py] defines a drawing canvas ([Canvas]) together with
    the shapes [Point], [Line] and [Rectangle].  The development below
    transcribes these classes: integers are [Z], a Python [list] is a Rocq
    [list] read and written with Python's index rules (negative indices count
    from the end, anything else out of range raises [IndexError]), the [set]
    of the flood fill is a [gset], and a method that mutates [self] and may
    raise is a function from the canvas before the call to an outcome and the
    canvas after it, so that what an aborted call has already written stays
    visible. *)

From Stdlib Require Import ZArith Lia Ascii String.
From stdpp Require Import base decidable option list gmap strings.

Open Scope Z_scope.

(** ** The fragment of the Python runtime the module relies on *)

Module Py.

(** The exception classes that the module or the builtins it calls raise. *)
Inductive exn : Type :=
| OutOfCanvasBoundError
| NotImplementedError
| IndexError
| TypeError
| ValueError
| OverflowError.

(** A call either returns a value or raises. *)
Inductive outcome (A : Type) : Type :=
| Returns (a : A)
| Raises (e : exn).
Arguments Returns {A} a.
Arguments Raises {A} e.

Definition bind {A B} (o : outcome A) (k : A → outcome B) : outcome B :=
  match o with
  | Returns a => k a
  | Raises e => Raises e
  end.

(** [range(a, b)]: the integers from [a] up to [b - 1], empty when
    [b <= a]. *)
Definition range (a b : Z) : list Z :=
  map (λ i : nat, a + Z.of_nat i) (seq 0 (Z.to_nat (b - a))).

(** The position a Python index designates in a list of length [n]. *)
Definition index (n : nat) (i : Z) : option nat :=
  if bool_decide (0 ≤ i < Z.of_nat n) then Some (Z.to_nat i)
  else if bool_decide (- Z.of_nat n ≤ i < 0) then Some (Z.to_nat (i + Z.of_nat n))
  else None.

(** [l[i]] *)
Definition getitem {A} (l : list A) (i : Z) : outcome A :=
  match index (length l) i with
  | Some k =>
      match l !! k with
      | Some a => Returns a
      | None => Raises IndexError
      end
  | None => Raises IndexError
  end.

(** [l[i] = v] *)
Definition setitem {A} (l : list A) (i : Z) (v : A) : outcome (list A) :=
  match index (length l) i with
  | Some k => Returns (<[k := v]> l)
  | None => Raises IndexError
  end.

(** [l.pop()]: the last element and the list without it. *)
Definition pop {A} (l : list A) : option (A * list A) :=
  match reverse l with
  | [] => None
  | a :: r => Some (a, reverse r)
  end.

(** Floats are the IEEE values: not-a-number, the two infinities, and
    [m * 2^e] for integers [m] and [e]. *)
Inductive float : Type :=
| FNan
| FInf (negative : bool)
| FFinite (m e : Z).

(** The arguments a caller may hand to a constructor.  A [str] is given by
    what the builtin [int] reads in it: [Some z] for a string that [int]
    reads as the integer [z], [None] for a string that [int] refuses. *)
Inductive val : Type :=
| VInt (z : Z)
| VFloat (f : float)
| VStr (reads : option Z)
| VList (l : list Z)
| VNone.

(** [int(v)]: integers are kept, finite floats are truncated toward zero,
    a string gives what [int] reads in it, and the other values are
    refused. *)
Definition int (v : val) : outcome Z :=
  match v with
  | VInt z => Returns z
  | VFloat FNan => Raises ValueError
  | VFloat (FInf _) => Raises OverflowError
  | VFloat (FFinite m e) =>
      Returns (if bool_decide (0 ≤ e) then m * 2 ^ e else Z.quot m (2 ^ (- e)))
  | VStr (Some z) => Returns z
  | VStr None => Raises ValueError
  | VList _ => Raises TypeError
  | VNone => Raises TypeError
  end.

End Py.

Import Py.

(** ** [class CanvasCellContentType(Enum)] *)

Module CanvasCellContentType.
Inductive t : Type :=
| Empty
| Line.

#[global] Instance eq_dec : EqDecision t.
Proof. solve_decision. Defined.
End CanvasCellContentType.

(** A cell of the canvas: the tuple (content type, colour). *)
Definition Cell : Type := CanvasCellContentType.t * string.

(** ** [class Point] *)

Record Point : Type := mkPoint { x : Z; y : Z }.

(** [Point.__init__] *)
Definition Point_init (vx vy : val) : outcome Point :=
  bind (int vx) (λ px, bind (int vy) (λ py, Returns (mkPoint px py))).

#[global] Instance Point_eq_dec : EqDecision Point.
Proof. solve_decision. Defined.

#[global] Instance Point_countable : Countable Point.
Proof.
  refine (inj_countable' (λ p, (x p, y p)) (λ q, mkPoint q.1 q.2) _).
  by intros [].
Defined.

(** ** [class Line] *)

Record Line : Type := mkLine { from_point : Point; to_point : Point }.

(** [Line.__init__] stores its two arguments. *)
Definition Line_init (from_point to_point : Point) : outcome Line :=
  Returns (mkLine from_point to_point).

Definition _is_horizontal (self : Line) : bool :=
  bool_decide (x (from_point self) = x (to_point self)).

Definition _is_vertical (self : Line) : bool :=
  bool_decide (y (from_point self) = y (to_point self)).

(** [Line.get_points] *)
Definition get_points (self : Line) : outcome (list Point) :=
  if _is_horizontal self then
    Returns (map (λ py, mkPoint (x (from_point self)) py)
                 (range (y (from_point self)) (y (to_point self) + 1)))
  else if _is_vertical self then
    Returns (map (λ px, mkPoint px (y (from_point self)))
                 (range (x (from_point self)) (x (to_point self) + 1)))
  else Raises NotImplementedError.

(** ** [class Rectangle] *)

Record Rectangle : Type :=
  mkRectangle { top_left_point : Point; bottom_right_point : Point }.

(** [Rectangle.get_lines] *)
Definition get_lines (self : Rectangle) : list Line :=
  let top_right_point :=
    mkPoint (x (bottom_right_point self)) (y (top_left_point self)) in
  let bottom_left_point :=
    mkPoint (x (top_left_point self)) (y (bottom_right_point self)) in
  [ mkLine (top_left_point self) top_right_point;
    mkLine (top_left_point self) bottom_left_point;
    mkLine top_right_point (bottom_right_point self);
    mkLine bottom_left_point (bottom_right_point self) ].

(** ** [class Canvas] *)

Record Canvas : Type := mkCanvas {
  width : Z;
  height : Z;
  cells : list (list Cell);
  _previous_states : list (list (list Cell))
}.

Definition set_cells (self : Canvas) (cs : list (list Cell)) : Canvas :=
  mkCanvas (width self) (height self) cs (_previous_states self).

(** A method: the canvas before the call gives the outcome of the call and the
    canvas after it. *)
Definition method (A : Type) : Type := Canvas → outcome A * Canvas.

Definition ret {A} (a : A) : method A := λ self, (Returns a, self).
Definition raise {A} (e : exn) : method A := λ self, (Raises e, self).
Definition then_ {A B} (m : method A) (k : A → method B) : method B :=
  λ self,
    match m self with
    | (Returns a, self') => k a self'
    | (Raises e, self') => (Raises e, self')
    end.

Notation "m >> k" := (then_ m (λ _, k))
  (at level 65, right associativity).

(** [for a in l: body(a)] *)
Fixpoint for_each {A} (l : list A) (body : A → method unit) : method unit :=
  match l with
  | [] => ret tt
  | a :: r => body a >> for_each r body
  end.

(** [Canvas.__init__]: the outer comprehension runs over [range(height)] and
    the inner one over [range(width)]. *)
Definition Canvas_init (vwidth vheight : val) : outcome Canvas :=
  bind (int vwidth) (λ w,
  bind (int vheight) (λ h,
    Returns (mkCanvas w h
               (map (λ _ : Z, map (λ _ : Z, (CanvasCellContentType.Empty, " "%string))
                                  (range 0 w))
                    (range 0 h))
               []))).

(** [cells[point.x][point.y]] *)
Definition read_cell (cs : list (list Cell)) (point : Point) : outcome Cell :=
  bind (getitem cs (x point)) (λ col, getitem col (y point)).

(** [cells[point.x][point.y] = v]: the inner list is fetched, then updated in
    place. *)
Definition write_cell (cs : list (list Cell)) (point : Point) (v : Cell)
  : outcome (list (list Cell)) :=
  bind (getitem cs (x point)) (λ col,
  bind (setitem col (y point) v) (λ col',
    setitem cs (x point) col')).

Definition _draw_point (point : Point) : method unit :=
  λ self,
    match write_cell (cells self) point (CanvasCellContentType.Line, "x"%string) with
    | Returns cs => (Returns tt, set_cells self cs)
    | Raises e => (Raises e, self)
    end.

Definition _point_is_out_of_bound (self : Canvas) (point : Point) : bool :=
  let x_is_out_of_canvas_bound :=
    (x point <? 0) || (x point >=? width self) in
  let y_is_out_of_canvas_bound :=
    (y point <? 0) || (y point >=? height self) in
  x_is_out_of_canvas_bound || y_is_out_of_canvas_bound.

(** [Canvas._save_state]: a deep copy of the cells is appended. *)
Definition _save_state : method unit :=
  λ self,
    (Returns tt,
     mkCanvas (width self) (height self) (cells self)
              (_previous_states self ++ [cells self])).

Definition _draw_line (line : Line) : method unit :=
  λ self,
    match get_points line with
    | Returns points => for_each points _draw_point self
    | Raises e => (Raises e, self)
    end.

Definition draw_line (line : Line) : method unit :=
  λ self,
    if _point_is_out_of_bound self (from_point line)
       || _point_is_out_of_bound self (to_point line)
    then raise OutOfCanvasBoundError self
    else (_save_state >> _draw_line line) self.

Definition draw_rectangle (rectangle : Rectangle) : method unit :=
  λ self,
    if _point_is_out_of_bound self (top_left_point rectangle)
       || _point_is_out_of_bound self (bottom_right_point rectangle)
    then raise OutOfCanvasBoundError self
    else (_save_state >> for_each (get_lines rectangle) _draw_line) self.

(** [Canvas.undo] *)
Definition undo : method unit :=
  λ self,
    match pop (_previous_states self) with
    | Some (state, rest) =>
        (Returns tt, mkCanvas (width self) (height self) state rest)
    | None => (Returns tt, self)
    end.

(** The local function [can_process_cell] of [_bucket_fill]; it reads the
    current [processed] and [to_process]. *)
Definition can_process_cell (self : Canvas) (processed : gset Point)
    (to_process : list Point) (cell : Point) : bool :=
  negb (bool_decide (cell ∈ processed))
  && negb (bool_decide (cell ∈ to_process))
  && negb (_point_is_out_of_bound self cell).

(** [if can_process_cell(n): to_process.insert(0, n)] *)
Definition enqueue (self : Canvas) (processed : gset Point)
    (to_process : list Point) (neighbour : Point) : list Point :=
  if can_process_cell self processed to_process neighbour
  then neighbour :: to_process
  else to_process.

(** The four neighbours, in the order the loop body visits them. *)
Definition neighbours (current_point : Point) : list Point :=
  [ mkPoint (x current_point - 1) (y current_point);
    mkPoint (x current_point + 1) (y current_point);
    mkPoint (x current_point) (y current_point - 1);
    mkPoint (x current_point) (y current_point + 1) ].

(** The [while to_process != []] loop of [_bucket_fill].  Each iteration uses
    one unit of [fuel]; [None] means the fuel ran out before the loop ended. *)
Fixpoint _bucket_fill_loop (fuel : nat)
    (content_type_to_fill : CanvasCellContentType.t) (colour : string)
    (reset_content_type : bool)
    (processed : gset Point) (to_process : list Point) (self : Canvas)
  : option (outcome unit * Canvas) :=
  match pop to_process with
  | None => Some (Returns tt, self)
  | Some (current_point, to_process) =>
      match fuel with
      | O => None
      | S fuel =>
          let processed := {[current_point]} ∪ processed in
          match read_cell (cells self) current_point with
          | Raises e => Some (Raises e, self)
          | Returns (current_point_type, _) =>
              if bool_decide (current_point_type = content_type_to_fill) then
                let painted :=
                  if reset_content_type
                  then (CanvasCellContentType.Empty, colour)
                  else (content_type_to_fill, colour) in
                match write_cell (cells self) current_point painted with
                | Raises e => Some (Raises e, self)
                | Returns cs =>
                    let self := set_cells self cs in
                    let to_process :=
                      foldl (enqueue self processed) to_process
                            (neighbours current_point) in
                    _bucket_fill_loop fuel content_type_to_fill colour
                      reset_content_type processed to_process self
                end
              else
                _bucket_fill_loop fuel content_type_to_fill colour
                  reset_content_type processed to_process self
          end
      end
  end.

(** Twice the number of points inside the bounds, plus one: more iterations
    than the loop of [_bucket_fill] can make (see
    [_bucket_fill_loop_terminates]). *)
Definition enough_fuel (self : Canvas) : nat :=
  S (2 * (Z.to_nat (width self) * Z.to_nat (height self))).

Definition _bucket_fill (point : Point) (colour : string)
    (reset_content_type : bool) (self : Canvas)
  : option (outcome unit * Canvas) :=
  match read_cell (cells self) point with
  | Raises e => Some (Raises e, self)
  | Returns (content_type_to_fill, _) =>
      _bucket_fill_loop (enough_fuel self) content_type_to_fill colour
        reset_content_type ∅ [point] self
  end.

Definition bucket_fill (point : Point) (colour : string) (self : Canvas)
  : option (outcome unit * Canvas) :=
  if _point_is_out_of_bound self point
  then Some (raise OutOfCanvasBoundError self)
  else
    match _save_state self with
    | (Returns _, self) => _bucket_fill point colour false self
    | (Raises e, self) => Some (Raises e, self)
    end.

Definition delete (point : Point) (self : Canvas)
  : option (outcome unit * Canvas) :=
  if _point_is_out_of_bound self point
  then Some (raise OutOfCanvasBoundError self)
  else
    match _save_state self with
    | (Returns _, self) => _bucket_fill point " " true self
    | (Raises e, self) => Some (Raises e, self)
    end.

(** The four mutating calls of the public interface, and how each is run. *)
Inductive call : Type :=
| DrawLine (line : Line)
| DrawRectangle (rectangle : Rectangle)
| BucketFill (point : Point) (colour : string)
| Delete (point : Point).

Definition run (c : call) (self : Canvas) : option (outcome unit * Canvas) :=
  match c with
  | DrawLine line => Some (draw_line line self)
  | DrawRectangle rectangle => Some (draw_rectangle rectangle self)
  | BucketFill point colour => bucket_fill point colour self
  | Delete point => delete point self
  end.

(** The points that the guard at the head of each call tests. *)
Definition checked_points (c : call) : list Point :=
  match c with
  | DrawLine line => [from_point line; to_point line]
  | DrawRectangle rectangle =>
      [top_left_point rectangle; bottom_right_point rectangle]
  | BucketFill point _ => [point]
  | Delete point => [point]
  end.

(** The canvas [Canvas(n, n)] as [__init__] leaves it. *)
Definition blank (n : nat) : Canvas :=
  mkCanvas (Z.of_nat n) (Z.of_nat n)
    (replicate n (replicate n (CanvasCellContentType.Empty, " "%string))) [].

(** ** The remaining methods *)





(** [s * n] on strings. *)
Definition str_mul (s : string) (n : Z) : string :=
  Nat.iter (Z.to_nat n) (String.append s) EmptyString.

(** The line feed. *)
Definition newline : string := String (ascii_of_nat 10) EmptyString.

(** The inner loop of [Canvas.__str__]: [for x in range(self.width)], on the
    text built so far. *)
Fixpoint str_row (cs : list (list Cell)) (py : Z) (xs : list Z)
    (canvas_str : string) : outcome string :=
  match xs with
  | [] => Returns canvas_str
  | px :: xs =>
      bind (read_cell cs (mkPoint px py)) (λ c,
        str_row cs py xs (canvas_str +:+ c.2))
  end.

(** The outer loop of [Canvas.__str__]: [for y in range(self.height)]. *)
Fixpoint str_rows (self : Canvas) (ys : list Z) (canvas_str : string)
  : outcome string :=
  match ys with
  | [] => Returns canvas_str
  | py :: ys =>
      bind (str_row (cells self) py (range 0 (width self)) (canvas_str +:+ "|"))
        (λ canvas_str, str_rows self ys (canvas_str +:+ "|" +:+ newline))
  end.

(** [Canvas.__str__] *)
Definition Canvas_str (self : Canvas) : outcome string :=
  bind (str_rows self (range 0 (height self))
          (" " +:+ str_mul "-" (width self) +:+ " " +:+ newline))
    (λ canvas_str,
       Returns (canvas_str +:+ " " +:+ str_mul "-" (width self) +:+ " ")).

(** * Notions used in the statements *)

(** ** Frames and saved states *)

(** Two canvases with the same dimensions and the same saved states. *)
Definition same_frame (self self' : Canvas) : Prop :=
  width self' = width self
  ∧ height self' = height self
  ∧ _previous_states self' = _previous_states self.

(** The canvas right after [_save_state]. *)
Definition saved (self : Canvas) : Canvas :=
  mkCanvas (width self) (height self) (cells self)
           (_previous_states self ++ [cells self]).

(** ** The work left to the flood fill *)

(** The points inside the bounds of the canvas. *)
Definition all_points (self : Canvas) : list Point :=
  (λ q, mkPoint q.1 q.2)
    <$> (list_prod (range 0 (width self)) (range 0 (height self))).

(** The points inside the bounds that are neither processed nor queued. *)
Definition waiting (self : Canvas) (processed : gset Point)
    (to_process : list Point) : list Point :=
  filter (λ q, (q ∉ processed) ∧ (q ∉ to_process)) (all_points self).

(** The quantity that every iteration of the loop decreases. *)
Definition work_left (self : Canvas) (processed : gset Point)
    (to_process : list Point) : nat :=
  2 * length (waiting self processed to_process) + length to_process.

(** ** Shapes, regions and the invariant of the flood fill *)

(** [width] columns of [height] cells. *)
Definition well_shaped (self : Canvas) : Prop :=
  length (cells self) = Z.to_nat (width self)
  ∧ ∀ col, col ∈ cells self → length col = Z.to_nat (height self).

(** The content type stored at a point, when the point can be read. *)
Definition type_of (cs : list (list Cell)) (p : Point)
  : option CanvasCellContentType.t :=
  match read_cell cs p with
  | Returns c => Some c.1
  | Raises _ => None
  end.

(** Two points are adjacent when they differ by one in exactly one
    coordinate. *)
Definition adjacent (p q : Point) : Prop :=
  (x q = x p ∧ (y q = y p - 1 ∨ y q = y p + 1))
  ∨ (y q = y p ∧ (x q = x p - 1 ∨ x q = x p + 1)).

(** The points that a chain of adjacent points of content type [ty], all
    inside the bounds, links to [start]. *)
Inductive fill_region (self : Canvas) (ty : CanvasCellContentType.t)
    (start : Point) : Point → Prop :=
| fill_start :
    _point_is_out_of_bound self start = false →
    type_of (cells self) start = Some ty →
    fill_region self ty start start
| fill_step q n :
    fill_region self ty start q →
    adjacent q n →
    _point_is_out_of_bound self n = false →
    type_of (cells self) n = Some ty →
    fill_region self ty start n.

(** The invariant of the loop of [_bucket_fill] when it fills type [ty]
    with [colour] from [start]: [self0] is the canvas when the loop is
    entered; [processed], [to_process] and [self] are the set, the queue and
    the canvas at the head of an iteration. *)
Record fill_inv (self0 : Canvas) (ty : CanvasCellContentType.t)
    (colour : string) (start : Point)
    (processed : gset Point) (to_process : list Point)
    (self : Canvas) : Prop := {
  inv_frame : same_frame self0 self;
  inv_shape : well_shaped self;
  inv_painted : ∀ q,
    q ∈ processed → type_of (cells self0) q = Some ty →
    read_cell (cells self) q = Returns (ty, colour);
  inv_untouched : ∀ q,
    _point_is_out_of_bound self0 q = false →
    ¬ (q ∈ processed ∧ type_of (cells self0) q = Some ty) →
    read_cell (cells self) q = read_cell (cells self0) q;
  inv_reached : ∀ q,
    q ∈ processed ∨ q ∈ to_process →
    _point_is_out_of_bound self0 q = false
    ∧ (q = start ∨ ∃ r, fill_region self0 ty start r ∧ adjacent r q);
  inv_closed : ∀ r n,
    r ∈ processed → type_of (cells self0) r = Some ty →
    adjacent r n → _point_is_out_of_bound self0 n = false →
    n ∈ processed ∨ n ∈ to_process;
  inv_start : start ∈ processed ∨ start ∈ to_process
}.
Arguments inv_frame {_ _ _ _ _ _ _}.
Arguments inv_shape {_ _ _ _ _ _ _}.
Arguments inv_painted {_ _ _ _ _ _ _}.
Arguments inv_untouched {_ _ _ _ _ _ _}.
Arguments inv_reached {_ _ _ _ _ _ _}.
Arguments inv_closed {_ _ _ _ _ _ _}.
Arguments inv_start {_ _ _ _ _ _ _}.

(** A canvas whose cells and saved states all have the shape
    [width] by [height]. *)
Definition well_formed (self : Canvas) : Prop :=
  well_shaped self
  ∧ Forall (λ cs, well_shaped (set_cells self cs)) (_previous_states self).

(** The canvases that calls and [undo] produce from [Canvas(n, n)]. *)
Inductive reachable (n : nat) : Canvas → Prop :=
| reach_init : reachable n (blank n)
| reach_call c self r :
    reachable n self → run c self = Some r → reachable n r.2
| reach_undo self :
    reachable n self → reachable n (undo self).2.

(** ** Lines, borders and text *)

(** The points between the two ends of an axis-aligned line, the first end
    being the smaller one. *)
Definition on_line (line : Line) (q : Point) : Prop :=
  (x q = x (from_point line) ∧ x q = x (to_point line)
   ∧ y (from_point line) ≤ y q ≤ y (to_point line))
  ∨ (y q = y (from_point line) ∧ y q = y (to_point line)
     ∧ x (from_point line) ≤ x q ≤ x (to_point line)).

(** The border of a rectangle whose first corner is the smaller one in both
    coordinates. *)
Definition on_border (rect : Rectangle) (q : Point) : Prop :=
  ((x q = x (top_left_point rect) ∨ x q = x (bottom_right_point rect))
   ∧ y (top_left_point rect) ≤ y q ≤ y (bottom_right_point rect))
  ∨ ((y q = y (top_left_point rect) ∨ y q = y (bottom_right_point rect))
     ∧ x (top_left_point rect) ≤ x q ≤ x (bottom_right_point rect)).

(** The points of a line, none when [get_points] raises. *)
Definition line_points (line : Line) : list Point :=
  match get_points line with
  | Returns points => points
  | Raises _ => []
  end.

(** The colour stored at a point, when the point can be read. *)
Definition colour_at (cs : list (list Cell)) (p : Point) : string :=
  match read_cell cs p with
  | Returns c => c.2
  | Raises _ => EmptyString
  end.

(** Concatenation of a list of strings. *)
Definition join (l : list string) : string :=
  foldr String.append EmptyString l.

(** One row of the rendering: the colours of the cells [(0, py)],
    [(1, py)], ... between two bars. *)
Definition text_row (self : Canvas) (py : Z) : string :=
  "|" +:+ join (map (λ px, colour_at (cells self) (mkPoint px py))
                    (range 0 (width self)))
      +:+ "|" +:+ newline.

(** The top line of the rendering, without its line feed; the bottom line is
    the same. *)
Definition text_border (self : Canvas) : string :=
  " " +:+ str_mul "-" (width self) +:+ " ".

(** ** Sequences of calls *)

(** A sequence of calls that all return, each on the canvas the previous one
    left. *)
Fixpoint replay (calls : list call) (self : Canvas) : option Canvas :=
  match calls with
  | [] => Some self
  | c :: calls =>
      match run c self with
      | Some (Returns _, self') => replay calls self'
      | _ => None
      end
  end.

(** ** The invariant of the flood fill, for [bucket_fill] and [delete] *)

(** As [fill_inv], for a loop that writes [paint] into the cells it fills:
    [(ty, colour)] for [bucket_fill], [(Empty, colour)] for [delete]. *)
Record sweep_inv (self0 : Canvas) (ty : CanvasCellContentType.t)
    (paint : Cell) (start : Point)
    (processed : gset Point) (to_process : list Point)
    (self : Canvas) : Prop := {
  sweep_frame : same_frame self0 self;
  sweep_shape : well_shaped self;
  sweep_painted : ∀ q,
    q ∈ processed → type_of (cells self0) q = Some ty →
    read_cell (cells self) q = Returns paint;
  sweep_untouched : ∀ q,
    _point_is_out_of_bound self0 q = false →
    ¬ (q ∈ processed ∧ type_of (cells self0) q = Some ty) →
    read_cell (cells self) q = read_cell (cells self0) q;
  sweep_reached : ∀ q,
    q ∈ processed ∨ q ∈ to_process →
    _point_is_out_of_bound self0 q = false
    ∧ (q = start ∨ ∃ r, fill_region self0 ty start r ∧ adjacent r q);
  sweep_closed : ∀ r n,
    r ∈ processed → type_of (cells self0) r = Some ty →
    adjacent r n → _point_is_out_of_bound self0 n = false →
    n ∈ processed ∨ n ∈ to_process;
  sweep_start : start ∈ processed ∨ start ∈ to_process
}.
Arguments sweep_frame {_ _ _ _ _ _ _}.
Arguments sweep_shape {_ _ _ _ _ _ _}.
Arguments sweep_painted {_ _ _ _ _ _ _}.
Arguments sweep_untouched {_ _ _ _ _ _ _}.
Arguments sweep_reached {_ _ _ _ _ _ _}.
Arguments sweep_closed {_ _ _ _ _ _ _}.
Arguments sweep_start {_ _ _ _ _ _ _}.

(** * Properties *)

(** ** Lists, ranges and indices *)

Section runtime.
Context {A : Type}.
Implicit Types (l : list A) (a : A).

Lemma pop_nil : pop (@nil A) = None.
Proof. reflexivity. Qed.

Lemma pop_snoc l a : pop (l ++ [a]) = Some (a, l).
Proof. unfold pop. by rewrite reverse_snoc, reverse_involutive. Qed.

Lemma pop_Some l a r : pop l = Some (a, r) → l = r ++ [a].
Proof.
  unfold pop. destruct (reverse l) as [|b t] eqn:E; [done|].
  intros [= -> <-]. rewrite <- (reverse_involutive l), E.
  by rewrite reverse_cons.
Qed.

Lemma pop_None l : pop l = None → l = [].
Proof.
  unfold pop. destruct (reverse l) eqn:E; [|done].
  intros _. rewrite <- (reverse_involutive l), E. reflexivity.
Qed.

Lemma index_Some n i k : index n i = Some k → (k < n)%nat.
Proof.
  unfold index. repeat case_bool_decide; intros [= <-]; lia.
Qed.

Lemma index_nonneg n i :
  0 ≤ i < Z.of_nat n → index n i = Some (Z.to_nat i).
Proof. intros. unfold index. by rewrite bool_decide_eq_true_2. Qed.

Lemma index_too_large n i : Z.of_nat n ≤ i → index n i = None.
Proof.
  intros. unfold index. by rewrite !bool_decide_eq_false_2 by lia.
Qed.

Lemma getitem_nonneg l i a :
  0 ≤ i → l !! Z.to_nat i = Some a → getitem l i = Returns a.
Proof.
  intros Hi Hl. unfold getitem.
  rewrite index_nonneg, Hl; [done|].
  apply lookup_lt_Some in Hl. lia.
Qed.

Lemma setitem_nonneg l i a :
  0 ≤ i < Z.of_nat (length l) →
  setitem l i a = Returns (<[Z.to_nat i := a]> l).
Proof. intros. unfold setitem. by rewrite index_nonneg. Qed.

Lemma setitem_length l i a l' :
  setitem l i a = Returns l' → length l' = length l.
Proof.
  unfold setitem. destruct (index _ _); intros [= <-].
  apply length_insert.
Qed.
End runtime.

Lemma length_range a b : length (range a b) = Z.to_nat (b - a).
Proof. unfold range. by rewrite length_map, length_seq. Qed.

Lemma lookup_range a b (i : nat) :
  (i < Z.to_nat (b - a))%nat → range a b !! i = Some (a + Z.of_nat i).
Proof.
  intros. unfold range.
  rewrite list_lookup_fmap, lookup_seq_lt by done. reflexivity.
Qed.

Lemma elem_of_range a b z : z ∈ range a b ↔ a ≤ z < b.
Proof.
  unfold range. rewrite list_elem_of_fmap. split.
  - intros (i & -> & Hi). apply elem_of_seq in Hi. lia.
  - intros ?. exists (Z.to_nat (z - a)). split; [lia|].
    apply elem_of_seq. lia.
Qed.

Lemma out_of_bound_false self p :
  _point_is_out_of_bound self p = false ↔
  0 ≤ x p < width self ∧ 0 ≤ y p < height self.
Proof.
  unfold _point_is_out_of_bound.
  rewrite !orb_false_iff, !Z.ltb_ge, !Z.geb_leb, !Z.leb_gt. lia.
Qed.

(** ** Construction *)

(** What [__init__] builds from two integers: [height] rows of [width] blank
    cells and no saved state. *)
Lemma Canvas_init_int (w h : Z) :
  Canvas_init (VInt w) (VInt h) =
  Returns (mkCanvas w h
             (replicate (Z.to_nat h)
                (replicate (Z.to_nat w) (CanvasCellContentType.Empty, " "%string)))
             []).
Proof.
  unfold Canvas_init, range. cbn. do 2 f_equal.
  rewrite !Z.sub_0_r.
  assert (Hrep : ∀ (B : Type) (b : B) n k,
             map (λ _ : Z, b) (map (λ i : nat, 0 + Z.of_nat i) (seq k n))
             = replicate n b).
  { intros B b n. induction n as [|n IH]; intros k; cbn; [done|].
    by rewrite IH. }
  by rewrite !Hrep.
Qed.

Lemma Canvas_init_square (n : nat) :
  Canvas_init (VInt (Z.of_nat n)) (VInt (Z.of_nat n)) = Returns (blank n).
Proof. rewrite Canvas_init_int. unfold blank. by rewrite Nat2Z.id. Qed.

(** C1 (the code departs from it).  [Canvas(2, 1)] stores one list of two
    cells, not two lists of one cell: the point (1, 0) passes the bounds test
    of the canvas, yet [cells[1][0]] raises [IndexError]. *)
Theorem Canvas_init_cells_transposed :
  ∃ self,
    Canvas_init (VInt 2) (VInt 1) = Returns self
    ∧ cells self = [[(CanvasCellContentType.Empty, " "%string);
                     (CanvasCellContentType.Empty, " "%string)]]
    ∧ _point_is_out_of_bound self (mkPoint 1 0) = false
    ∧ read_cell (cells self) (mkPoint 1 0) = Raises IndexError
    ∧ fst (_draw_point (mkPoint 1 0) self) = Raises IndexError.
Proof. eexists. split; [reflexivity|]. repeat split. Qed.





(** The two kinds of fixtures of the test suite: a string that [int] cannot
    read and a list are refused. *)
Lemma Canvas_init_refuses_fixtures :
  Canvas_init (VStr None) (VInt 50) = Raises ValueError
  ∧ Canvas_init (VInt 50) (VList [50]) = Raises TypeError.
Proof. split; reflexivity. Qed.

(** ** Lines and rectangles *)

(** C5.  A line with equal [x] yields the points [(from.x, from.y + i)] in
    ascending order, [|to.y - from.y| + 1] of them when [from.y <= to.y] and
    none when [from.y > to.y]; a line with equal [y] yields the points
    [(from.x + i, from.y)] likewise. *)
Theorem get_points_axis_aligned (line : Line) :
  (x (from_point line) = x (to_point line) →
     ∃ points, get_points line = Returns points
       ∧ (y (from_point line) ≤ y (to_point line) →
            Z.of_nat (length points)
            = Z.abs (y (to_point line) - y (from_point line)) + 1)
       ∧ (y (from_point line) > y (to_point line) → points = [])
       ∧ (∀ i : nat, (i < length points)%nat →
            points !! i = Some (mkPoint (x (from_point line))
                                        (y (from_point line) + Z.of_nat i))))
  ∧ (y (from_point line) = y (to_point line) →
     ∃ points, get_points line = Returns points
       ∧ (x (from_point line) ≤ x (to_point line) →
            Z.of_nat (length points)
            = Z.abs (x (to_point line) - x (from_point line)) + 1)
       ∧ (x (from_point line) > x (to_point line) → points = [])
       ∧ (∀ i : nat, (i < length points)%nat →
            points !! i = Some (mkPoint (x (from_point line) + Z.of_nat i)
                                        (y (from_point line))))).
Proof.
  destruct line as [[fx fy] [tx ty]]; cbn.
  assert (Hgen : ∀ (f : Z → Point) a b,
    (a ≤ b → Z.of_nat (length (map f (range a (b + 1)))) = Z.abs (b - a) + 1)
    ∧ (a > b → map f (range a (b + 1)) = [])
    ∧ (∀ i : nat, (i < length (map f (range a (b + 1))))%nat →
         map f (range a (b + 1)) !! i = Some (f (a + Z.of_nat i)))).
  { intros f a b. rewrite length_map, length_range. repeat split.
    - lia.
    - intros. apply length_zero_iff_nil. rewrite length_map, length_range. lia.
    - intros i Hi. rewrite list_lookup_fmap, lookup_range by done. done. }
  unfold get_points, _is_horizontal, _is_vertical; cbn. split.
  - intros ->. rewrite bool_decide_eq_true_2 by done.
    eexists. split; [reflexivity|]. apply Hgen.
  - intros ->. case_bool_decide as Hx.
    + subst tx. eexists. split; [reflexivity|].
      rewrite length_map, length_range. repeat split.
      * lia.
      * lia.
      * intros i Hi. rewrite list_lookup_fmap, lookup_range by lia.
        cbn. f_equal. f_equal; lia.
    + rewrite bool_decide_eq_true_2 by done.
      eexists. split; [reflexivity|].
      apply (Hgen (λ px, mkPoint px ty)).
Qed.

Lemma get_points_axis_aligned_witness :
  x (mkPoint 1 1) = x (mkPoint 1 5)
  ∧ ∃ points, get_points (mkLine (mkPoint 1 1) (mkPoint 1 5)) = Returns points
      ∧ Z.of_nat (length points) = 5.
Proof.
  split; [reflexivity|].
  destruct (proj1 (get_points_axis_aligned (mkLine (mkPoint 1 1) (mkPoint 1 5)))
              eq_refl) as (points & Hp & Hlen & _).
  exists points. split; [exact Hp|]. apply Hlen. cbn. lia.
Defined.

(** The two fixtures of the test suite. *)
Lemma get_points_fixtures :
  get_points (mkLine (mkPoint 1 1) (mkPoint 1 5)) =
    Returns [mkPoint 1 1; mkPoint 1 2; mkPoint 1 3; mkPoint 1 4; mkPoint 1 5]
  ∧ get_points (mkLine (mkPoint 1 1) (mkPoint 5 1)) =
    Returns [mkPoint 1 1; mkPoint 2 1; mkPoint 3 1; mkPoint 4 1; mkPoint 5 1]
  ∧ get_points (mkLine (mkPoint 1 5) (mkPoint 1 1)) = Returns [].
Proof. repeat split. Qed.

(** C6.  For two points that differ in both coordinates the constructor
    returns the line, and [get_points] on that line raises
    [NotImplementedError]. *)
Theorem Line_diagonal_fails_lazily (p q : Point) :
  x p ≠ x q → y p ≠ y q →
  Line_init p q = Returns (mkLine p q)
  ∧ get_points (mkLine p q) = Raises NotImplementedError.
Proof.
  intros Hx Hy. split; [reflexivity|].
  unfold get_points, _is_horizontal, _is_vertical; cbn.
  by rewrite !bool_decide_eq_false_2.
Qed.

Lemma Line_diagonal_fails_lazily_witness :
  Line_init (mkPoint 0 0) (mkPoint 1 1) = Returns (mkLine (mkPoint 0 0) (mkPoint 1 1))
  ∧ get_points (mkLine (mkPoint 0 0) (mkPoint 1 1)) = Raises NotImplementedError.
Proof. apply (Line_diagonal_fails_lazily (mkPoint 0 0) (mkPoint 1 1)); cbn; lia. Defined.

(** [get_points] raises for the diagonal lines only. *)
Lemma get_points_Raises line e :
  get_points line = Raises e ↔
  e = NotImplementedError
  ∧ x (from_point line) ≠ x (to_point line)
  ∧ y (from_point line) ≠ y (to_point line).
Proof.
  unfold get_points, _is_horizontal, _is_vertical.
  repeat case_bool_decide; split; try done; try tauto.
  - intros [= <-]. done.
  - intros (-> & _). done.
Qed.

(** C7.  [get_lines] returns the four border lines in the order
    top-left to top-right, top-left to bottom-left, top-right to bottom-right,
    bottom-left to bottom-right, where top-right is [(br.x, tl.y)] and
    bottom-left is [(tl.x, br.y)]; the fixture with corners (5,1) and (1,5)
    gives (5,1)-(1,1), (5,1)-(5,5), (1,1)-(1,5), (5,5)-(1,5). *)
Theorem get_lines_four_in_order :
  (∀ tl br : Point,
     get_lines (mkRectangle tl br) =
     [ mkLine tl (mkPoint (x br) (y tl));
       mkLine tl (mkPoint (x tl) (y br));
       mkLine (mkPoint (x br) (y tl)) br;
       mkLine (mkPoint (x tl) (y br)) br ])
  ∧ get_lines (mkRectangle (mkPoint 5 1) (mkPoint 1 5)) =
     [ mkLine (mkPoint 5 1) (mkPoint 1 1);
       mkLine (mkPoint 5 1) (mkPoint 5 5);
       mkLine (mkPoint 1 1) (mkPoint 1 5);
       mkLine (mkPoint 5 5) (mkPoint 1 5) ].
Proof. split; reflexivity. Qed.

(** ** What a call leaves alone *)

Lemma same_frame_refl self : same_frame self self.
Proof. by repeat split. Qed.

Lemma same_frame_trans a b c : same_frame a b → same_frame b c → same_frame a c.
Proof. unfold same_frame. intros (? & ? & ?) (? & ? & ?). repeat split; congruence. Qed.

Lemma same_frame_set_cells self cs : same_frame self (set_cells self cs).
Proof. by repeat split. Qed.

Create HintDb canvas.
#[local] Hint Resolve same_frame_refl same_frame_set_cells : canvas.

Lemma out_of_bound_same_frame self self' p :
  same_frame self self' →
  _point_is_out_of_bound self' p = _point_is_out_of_bound self p.
Proof. intros (Hw & Hh & _). unfold _point_is_out_of_bound. by rewrite Hw, Hh. Qed.

Lemma _draw_point_frame p self : same_frame self (snd (_draw_point p self)).
Proof. unfold _draw_point. destruct (write_cell _ _ _); cbn; auto with canvas. Qed.

Lemma for_each_frame {A} (body : A → method unit) (l : list A) :
  (∀ a self, same_frame self (snd (body a self))) →
  ∀ self, same_frame self (snd (for_each l body self)).
Proof.
  intros Hbody. induction l as [|a l IH]; intros self; cbn; [auto with canvas|].
  unfold then_. specialize (Hbody a self).
  destruct (body a self) as [[[]|e] self1]; cbn in *; [|done].
  eapply same_frame_trans; [exact Hbody|apply IH].
Qed.

Lemma _draw_line_frame line self : same_frame self (snd (_draw_line line self)).
Proof.
  unfold _draw_line. destruct (get_points line); cbn; [|auto with canvas].
  apply for_each_frame. apply _draw_point_frame.
Qed.

Lemma _bucket_fill_loop_frame fuel ty colour reset :
  ∀ processed to_process self r,
    _bucket_fill_loop fuel ty colour reset processed to_process self = Some r →
    same_frame self (snd r).
Proof.
  induction fuel as [|fuel IH]; intros processed to_process self r; cbn.
  - destruct (pop to_process) as [[]|]; [done|].
    intros [= <-]. auto with canvas.
  - destruct (pop to_process) as [[cur rest]|]; [|intros [= <-]; auto with canvas].
    destruct (read_cell _ _) as [[cty ?]|e]; [|intros [= <-]; auto with canvas].
    case_bool_decide; [|by apply IH].
    destruct (write_cell _ _ _) as [cs|e]; [|intros [= <-]; auto with canvas].
    intros Hr. apply IH in Hr.
    eapply same_frame_trans; [apply same_frame_set_cells|exact Hr].
Qed.

Lemma _bucket_fill_frame p colour reset self r :
  _bucket_fill p colour reset self = Some r → same_frame self (snd r).
Proof.
  unfold _bucket_fill. destruct (read_cell _ _) as [[ty ?]|e].
  - apply _bucket_fill_loop_frame.
  - intros [= <-]. auto with canvas.
Qed.

Lemma undo_after_saved self self' :
  same_frame (saved self) self' → undo self' = (Returns tt, self).
Proof.
  intros (Hw & Hh & Hp). unfold undo. cbn in *.
  rewrite Hp, pop_snoc, Hw, Hh. by destruct self.
Qed.

(** Every call that passes its guard saves the state first and then only
    touches the cells. *)
Lemma run_guard_passed c self :
  Forall (λ p, _point_is_out_of_bound self p = false) (checked_points c) →
  ∀ r, run c self = Some r → same_frame (saved self) (snd r).
Proof.
  destruct c as [line|rect|p colour|p]; cbn;
    rewrite ?Forall_cons; intros H r.
  - destruct H as (H1 & H2 & _). unfold draw_line. rewrite H1, H2.
    intros [= <-]. apply (_draw_line_frame line (saved self)).
  - destruct H as (H1 & H2 & _). unfold draw_rectangle. rewrite H1, H2.
    intros [= <-].
    apply (for_each_frame _draw_line (get_lines rect) _draw_line_frame (saved self)).
  - destruct H as (Hp & _). unfold bucket_fill. rewrite Hp. cbn.
    apply _bucket_fill_frame.
  - destruct H as (Hp & _). unfold delete. rewrite Hp. cbn.
    apply _bucket_fill_frame.
Qed.

(** A call whose guard fails raises [OutOfCanvasBoundError] at once. *)
Lemma run_guard_failed c self :
  Exists (λ p, _point_is_out_of_bound self p = true) (checked_points c) →
  run c self = Some (Raises OutOfCanvasBoundError, self).
Proof.
  destruct c as [line|rect|p colour|p]; cbn;
    rewrite ?Exists_cons, Exists_nil; intros H.
  - unfold draw_line.
    destruct H as [->|[->|[]]]; by rewrite ?orb_true_r.
  - unfold draw_rectangle.
    destruct H as [->|[->|[]]]; by rewrite ?orb_true_r.
  - unfold bucket_fill. by destruct H as [->|[]].
  - unfold delete. by destruct H as [->|[]].
Qed.

(** ** Bounds errors *)

(** C2.  When one of the points that a call checks lies outside the canvas,
    the call raises [OutOfCanvasBoundError] and the canvas it leaves is the
    canvas it was given: same cells, same saved states. *)
Theorem out_of_bound_call_changes_nothing (c : call) (self : Canvas) (p : Point) :
  p ∈ checked_points c →
  ¬ (0 ≤ x p < width self ∧ 0 ≤ y p < height self) →
  run c self = Some (Raises OutOfCanvasBoundError, self).
Proof.
  intros Hin Hout. apply run_guard_failed, Exists_exists.
  exists p. split; [done|].
  rewrite <- out_of_bound_false in Hout. by destruct (_point_is_out_of_bound self p).
Qed.

Lemma out_of_bound_call_changes_nothing_witness :
  run (DrawLine (mkLine (mkPoint 3 3) (mkPoint 3 350))) (blank 50)
  = Some (Raises OutOfCanvasBoundError, blank 50).
Proof.
  apply (out_of_bound_call_changes_nothing _ _ (mkPoint 3 350)).
  - cbn. apply list_elem_of_In. cbn. auto.
  - cbn. lia.
Defined.

(** ** Undo *)

(** C3.  After a call that returned, [undo] returns and gives back the canvas
    as it was before the call (its cells in particular); with no saved state,
    [undo] returns and leaves the canvas as it is. *)
Theorem undo_restores_state :
  (∀ (c : call) (self self' : Canvas),
     run c self = Some (Returns tt, self') →
     undo self' = (Returns tt, self)
     ∧ cells (snd (undo self')) = cells self)
  ∧ (∀ self : Canvas,
       _previous_states self = [] → undo self = (Returns tt, self)).
Proof.
  split.
  - intros c self self' Hrun.
    assert (Hundo : undo self' = (Returns tt, self)); [|by rewrite Hundo].
    apply undo_after_saved.
    destruct (decide (Forall (λ p, _point_is_out_of_bound self p = false)
                             (checked_points c))) as [Hok|Hko].
    + apply (run_guard_passed c self Hok _ Hrun).
    + apply not_Forall_Exists in Hko; [|intros ?; apply _].
      rewrite run_guard_failed in Hrun; [done|].
      eapply Exists_impl; [exact Hko|]. cbn. intros q. by destruct (_point_is_out_of_bound self q).
  - intros self Hnil. unfold undo. by rewrite Hnil.
Qed.

Lemma undo_restores_state_witness :
  undo (snd (draw_line (mkLine (mkPoint 3 3) (mkPoint 3 35)) (blank 50)))
  = (Returns tt, blank 50)
  ∧ undo (blank 50) = (Returns tt, blank 50).
Proof.
  split.
  - apply (proj1 undo_restores_state
             (DrawLine (mkLine (mkPoint 3 3) (mkPoint 3 35))) (blank 50)).
    vm_compute. reflexivity.
  - apply (proj2 undo_restores_state (blank 50)). reflexivity.
Defined.

(** C10.  A diagonal line between two points of the canvas passes the guard
    of [draw_line]; the state is saved, then [get_points] raises
    [NotImplementedError] before any cell is written.  The saved states have
    grown by one entry, the cells are as before, and the next [undo] removes
    that entry. *)
Theorem draw_line_diagonal_saves_state (line : Line) (self : Canvas) :
  _point_is_out_of_bound self (from_point line) = false →
  _point_is_out_of_bound self (to_point line) = false →
  x (from_point line) ≠ x (to_point line) →
  y (from_point line) ≠ y (to_point line) →
  draw_line line self =
    (Raises NotImplementedError,
     mkCanvas (width self) (height self) (cells self)
              (_previous_states self ++ [cells self]))
  ∧ undo (snd (draw_line line self)) = (Returns tt, self).
Proof.
  intros Hf Ht Hx Hy.
  assert (Hrun : draw_line line self = (Raises NotImplementedError, saved self)).
  { unfold draw_line. rewrite Hf, Ht. cbn.
    unfold then_, _draw_line. cbn.
    by rewrite (proj2 (get_points_Raises line NotImplementedError)). }
  rewrite Hrun. split; [done|].
  apply undo_after_saved. cbn. apply same_frame_refl.
Qed.

Lemma draw_line_diagonal_saves_state_witness :
  draw_line (mkLine (mkPoint 0 0) (mkPoint 1 1)) (blank 2) =
    (Raises NotImplementedError,
     mkCanvas 2 2 (cells (blank 2)) [cells (blank 2)])
  ∧ undo (snd (draw_line (mkLine (mkPoint 0 0) (mkPoint 1 1)) (blank 2)))
    = (Returns tt, blank 2).
Proof.
  apply (draw_line_diagonal_saves_state (mkLine (mkPoint 0 0) (mkPoint 1 1)) (blank 2));
    cbn; (reflexivity || lia).
Defined.

(** ** Rectangles stay inside the canvas *)

(** Every point of the four lines of a rectangle lies between its two
    corners, so inside the canvas when the corners are. *)
Lemma get_lines_points_in_bounds self rect line :
  _point_is_out_of_bound self (top_left_point rect) = false →
  _point_is_out_of_bound self (bottom_right_point rect) = false →
  line ∈ get_lines rect →
  ∃ points, get_points line = Returns points
    ∧ Forall (λ p, _point_is_out_of_bound self p = false) points.
Proof.
  destruct rect as [[a b] [c d]]. rewrite !out_of_bound_false. cbn.
  intros Htl Hbr Hline. unfold get_lines in Hline. cbn in Hline.
  repeat (apply elem_of_cons in Hline as [->|Hline]);
    [| | | |by apply elem_of_nil in Hline];
    unfold get_points, _is_horizontal, _is_vertical; cbn;
    repeat case_bool_decide; try done;
    (eexists; split; [reflexivity|]);
    apply Forall_forall; intros p [z [-> Hz]]%list_elem_of_fmap;
    apply elem_of_range in Hz; apply out_of_bound_false; cbn; lia.
Qed.

Lemma for_each_app {A} (body : A → method unit) (l1 l2 : list A) self :
  for_each (l1 ++ l2) body self = (for_each l1 body >> for_each l2 body) self.
Proof.
  revert self. induction l1 as [|a l1 IH]; intros self; cbn; [done|].
  unfold then_ in *. destruct (body a self) as [[[]|e] self1]; [|done].
  apply IH.
Qed.

(** C8, as the code has it.  When the two corners of a rectangle pass the
    guard, each of the four lines yields its points without error and every
    point handed to [_draw_point] is inside the bounds of the canvas: the call
    is a run of [_draw_point] over points that would all pass the guard. *)
Theorem draw_rectangle_writes_in_bounds (rect : Rectangle) (self : Canvas) :
  _point_is_out_of_bound self (top_left_point rect) = false →
  _point_is_out_of_bound self (bottom_right_point rect) = false →
  (∀ line, line ∈ get_lines rect →
     ∃ points, get_points line = Returns points
       ∧ ∀ p, p ∈ points →
           0 ≤ x p < width self ∧ 0 ≤ y p < height self)
  ∧ ∃ points,
      draw_rectangle rect self = (_save_state >> for_each points _draw_point) self
      ∧ ∀ p, p ∈ points → 0 ≤ x p < width self ∧ 0 ≤ y p < height self.
Proof.
  intros Htl Hbr. split.
  - intros line Hline.
    destruct (get_lines_points_in_bounds self rect line Htl Hbr Hline)
      as (points & Hp & Hall).
    exists points. split; [done|]. intros p Hin. apply out_of_bound_false.
    by eapply Forall_forall in Hall.
  - unfold draw_rectangle. rewrite Htl, Hbr. cbn [orb].
    pose proof (get_lines_points_in_bounds self rect) as Hlines.
    specialize (λ line, Hlines line Htl Hbr).
    assert (Hgen : ∀ lines,
              (∀ line, line ∈ lines →
                 ∃ points, get_points line = Returns points
                   ∧ Forall (λ p, _point_is_out_of_bound self p = false) points) →
              ∃ points,
                (∀ s, for_each lines _draw_line s = for_each points _draw_point s)
                ∧ ∀ p, p ∈ points → 0 ≤ x p < width self ∧ 0 ≤ y p < height self).
    { clear. induction lines as [|line lines IH]; intros Hall.
      - exists []. split; [done|]. intros p Hp. by apply elem_of_nil in Hp.
      - destruct (Hall line) as (pts & Hpts & Hin); [apply elem_of_cons; by left|].
        destruct IH as (rest & Hrest & Hin'); [intros; apply Hall, elem_of_cons; by right|].
        exists (pts ++ rest). split.
        + intros s. rewrite for_each_app. cbn. unfold then_, _draw_line.
          rewrite Hpts. destruct (for_each pts _draw_point s) as [[[]|?] ?]; [|done].
          apply Hrest.
        + intros p [Hp|Hp]%elem_of_app; [|by apply Hin'].
          apply out_of_bound_false. by eapply Forall_forall in Hin. }
    destruct (Hgen (get_lines rect) Hlines) as (points & Heq & Hin).
    exists points. split; [|done]. unfold then_. cbn. apply Heq.
Qed.

Lemma draw_rectangle_writes_in_bounds_witness :
  ∃ points,
    draw_rectangle (mkRectangle (mkPoint 0 0) (mkPoint 2 1)) (blank 3)
    = (_save_state >> for_each points _draw_point) (blank 3)
    ∧ ∀ p, p ∈ points → 0 ≤ x p < 3 ∧ 0 ≤ y p < 3.
Proof.
  apply (proj2 (draw_rectangle_writes_in_bounds
                  (mkRectangle (mkPoint 0 0) (mkPoint 2 1)) (blank 3)
                  eq_refl eq_refl)).
Defined.

(** C8 as stated fails: no rectangle whose two corners pass the guard has a
    line with a point outside the bounds of the canvas. *)
Lemma draw_rectangle_no_write_out_of_bounds :
  ¬ ∃ (self : Canvas) (rect : Rectangle) (line : Line) (points : list Point)
      (p : Point),
      _point_is_out_of_bound self (top_left_point rect) = false
      ∧ _point_is_out_of_bound self (bottom_right_point rect) = false
      ∧ line ∈ get_lines rect
      ∧ get_points line = Returns points
      ∧ p ∈ points
      ∧ _point_is_out_of_bound self p = true.
Proof.
  intros (self & rect & line & points & p & Htl & Hbr & Hline & Hpts & Hp & Hout).
  destruct (get_lines_points_in_bounds self rect line Htl Hbr Hline)
    as (points' & Hpts' & Hall).
  rewrite Hpts in Hpts'. injection Hpts' as <-.
  eapply Forall_forall in Hall; [|exact Hp]. congruence.
Qed.

(** ** Flood fill *)

(** C4 (the code departs from it).  On [Canvas(2, 1)] both points (0, 0) and
    (1, 0) pass the bounds test and both cells are empty, so a fill from
    (0, 0) should paint the two of them.  The call paints (0, 0), takes
    (1, 0) from the queue and raises [IndexError] on [cells[1]], because
    [__init__] has stored one row of two cells. *)
Theorem bucket_fill_fails_on_oblong_canvas :
  ∃ self,
    Canvas_init (VInt 2) (VInt 1) = Returns self
    ∧ _point_is_out_of_bound self (mkPoint 0 0) = false
    ∧ _point_is_out_of_bound self (mkPoint 1 0) = false
    ∧ bucket_fill (mkPoint 0 0) "o" self =
      Some (Raises IndexError,
            mkCanvas 2 1
              [[(CanvasCellContentType.Empty, "o"%string);
                (CanvasCellContentType.Empty, " "%string)]]
              [[[(CanvasCellContentType.Empty, " "%string);
                 (CanvasCellContentType.Empty, " "%string)]]]).
Proof. eexists. split; [reflexivity|]. repeat split. Qed.

(** *** The loop of [_bucket_fill] ends *)

Lemma elem_of_all_points self p :
  p ∈ all_points self ↔ _point_is_out_of_bound self p = false.
Proof.
  unfold all_points. rewrite out_of_bound_false, list_elem_of_fmap. split.
  - intros ([a b] & -> & Hq). apply list_elem_of_In, in_prod_iff in Hq.
    rewrite <- !list_elem_of_In, !elem_of_range in Hq. cbn. lia.
  - intros ?. exists (x p, y p). split; [by destruct p|].
    apply list_elem_of_In, in_prod_iff.
    rewrite <- !list_elem_of_In, !elem_of_range. cbn. lia.
Qed.

Lemma length_all_points self :
  length (all_points self) = (Z.to_nat (width self) * Z.to_nat (height self))%nat.
Proof.
  unfold all_points. rewrite length_fmap, length_prod, !length_range.
  by rewrite !Z.sub_0_r.
Qed.

Lemma all_points_same_frame self self' :
  same_frame self self' → all_points self' = all_points self.
Proof. intros (Hw & Hh & _). unfold all_points. by rewrite Hw, Hh. Qed.

Section filter_length.
Context {A : Type} (P Q : A → Prop) `{!∀ a, Decision (P a), !∀ a, Decision (Q a)}.
Hypothesis P_Q : ∀ a, P a → Q a.

Lemma filter_length_le (l : list A) :
  (length (filter P l) ≤ length (filter Q l))%nat.
Proof.
  induction l as [|b l IH]; [done|].
  rewrite !filter_cons. repeat case_decide; cbn; try lia.
  exfalso. auto.
Qed.

Lemma filter_length_lt (l : list A) (a : A) :
  a ∈ l → Q a → ¬ P a → (length (filter P l) < length (filter Q l))%nat.
Proof.
  intros Hin HQ HP. induction l as [|b l IH]; [by apply elem_of_nil in Hin|].
  rewrite !filter_cons. apply elem_of_cons in Hin as [<-|Hin].
  - rewrite (decide_False (P := P a)), (decide_True (P := Q a)) by done. cbn.
    pose proof (filter_length_le l). lia.
  - specialize (IH Hin). repeat case_decide; cbn; try lia.
    exfalso. auto.
Qed.
End filter_length.

(** Queuing a neighbour does not increase the work left. *)
Lemma work_left_enqueue self processed to_process n :
  (work_left self processed (enqueue self processed to_process n)
   ≤ work_left self processed to_process)%nat.
Proof.
  unfold enqueue.
  destruct (can_process_cell self processed to_process n) eqn:Hcan; [|lia].
  unfold can_process_cell in Hcan.
  rewrite !andb_true_iff, !negb_true_iff in Hcan.
  destruct Hcan as [[Hp Ht] Hb].
  apply bool_decide_eq_false in Hp, Ht. apply elem_of_all_points in Hb.
  unfold work_left, waiting. cbn [length].
  assert (length (filter (λ q, (q ∉ processed) ∧ (q ∉ n :: to_process)) (all_points self))
          < length (filter (λ q, (q ∉ processed) ∧ (q ∉ to_process)) (all_points self)))%nat;
    [|lia].
  apply filter_length_lt with (a := n); [|done|done|].
  - intros q [? Hq]. split; [done|]. intros ?. apply Hq. by right.
  - intros [_ Hn]. apply Hn. by left.
Qed.

Lemma work_left_enqueue_all self processed ns to_process :
  (work_left self processed (foldl (enqueue self processed) to_process ns)
   ≤ work_left self processed to_process)%nat.
Proof.
  revert to_process. induction ns as [|n ns IH]; intros to_process; cbn; [done|].
  etrans; [apply IH|apply work_left_enqueue].
Qed.

(** Taking a point from the queue decreases the work left. *)
Lemma work_left_pop self processed to_process cur rest :
  pop to_process = Some (cur, rest) →
  (work_left self ({[cur]} ∪ processed) rest < work_left self processed to_process)%nat.
Proof.
  intros ->%pop_Some. unfold work_left, waiting. rewrite length_app. cbn.
  assert (length (filter (λ q, (q ∉ {[cur]} ∪ processed) ∧ (q ∉ rest)) (all_points self))
          ≤ length (filter (λ q, (q ∉ processed) ∧ (q ∉ rest ++ [cur])) (all_points self)))%nat;
    [|lia].
  apply filter_length_le. intros q [Hq1 Hq2].
  rewrite not_elem_of_union, not_elem_of_singleton in Hq1.
  split; [tauto|]. rewrite elem_of_app, list_elem_of_singleton. tauto.
Qed.

(** With at least [work_left] units of fuel the loop ends, whatever the
    canvas, the set and the queue it starts from. *)
Lemma _bucket_fill_loop_terminates fuel ty colour reset :
  ∀ processed to_process self,
    (work_left self processed to_process ≤ fuel)%nat →
    is_Some (_bucket_fill_loop fuel ty colour reset processed to_process self).
Proof.
  induction fuel as [|fuel IH]; intros processed to_process self Hfuel; cbn.
  - destruct (pop to_process) as [[cur rest]|] eqn:Hpop; [|done].
    apply work_left_pop with (self := self) (processed := processed) in Hpop. lia.
  - destruct (pop to_process) as [[cur rest]|] eqn:Hpop; [|done].
    apply work_left_pop with (self := self) (processed := processed) in Hpop.
    destruct (read_cell _ _) as [[cty ?]|e]; [|done].
    case_bool_decide; [|apply IH; lia].
    destruct (write_cell _ _ _) as [cs|e]; [|done].
    apply IH.
    pose proof (work_left_enqueue_all (set_cells self cs) ({[cur]} ∪ processed)
                  (neighbours cur) rest) as Hle.
    assert (work_left (set_cells self cs) ({[cur]} ∪ processed) rest
            = work_left self ({[cur]} ∪ processed) rest) as Heq by done.
    cbn [foldl neighbours] in Hle. unfold neighbours in Hle. cbn [foldl] in Hle.
    lia.
Qed.

(** More fuel does not change what the loop returns. *)
Lemma _bucket_fill_loop_fuel_mono fuel fuel' ty colour reset :
  (fuel ≤ fuel')%nat →
  ∀ processed to_process self r,
    _bucket_fill_loop fuel ty colour reset processed to_process self = Some r →
    _bucket_fill_loop fuel' ty colour reset processed to_process self = Some r.
Proof.
  revert fuel'. induction fuel as [|fuel IH]; intros fuel' Hle processed to_process self r; cbn.
  - destruct fuel'; cbn; by destruct (pop to_process) as [[]|].
  - destruct fuel' as [|fuel']; [lia|]. cbn.
    destruct (pop to_process) as [[cur rest]|]; [|done].
    destruct (read_cell _ _) as [[cty ?]|e]; [|done].
    case_bool_decide; [|apply IH; lia].
    destruct (write_cell _ _ _) as [cs|e]; [|done].
    apply IH. lia.
Qed.

Lemma work_left_start self p : (work_left self ∅ [p] ≤ enough_fuel self)%nat.
Proof.
  unfold work_left, waiting, enough_fuel. cbn [length].
  assert (Harith : ∀ n m : nat, (n ≤ m → 2 * n + 1 ≤ S (2 * m))%nat) by lia.
  apply Harith. rewrite <- length_all_points. apply length_filter.
Qed.

(** Every one of the four calls ends, on every canvas: it returns or raises. *)
Theorem run_terminates (c : call) (self : Canvas) : is_Some (run c self).
Proof.
  assert (Hfill : ∀ p colour reset s, is_Some (_bucket_fill p colour reset s)).
  { intros p colour reset s. unfold _bucket_fill.
    destruct (read_cell _ _) as [[ty ?]|e]; [|done].
    apply _bucket_fill_loop_terminates, work_left_start. }
  destruct c as [line|rect|p colour|p]; cbn; [done|done| |].
  - unfold bucket_fill. destruct (_point_is_out_of_bound self p); [done|]. apply Hfill.
  - unfold delete. destruct (_point_is_out_of_bound self p); [done|]. apply Hfill.
Qed.

(** *** Canvases whose cells have the shape that the bounds test assumes *)

Lemma elem_of_neighbours p n : n ∈ neighbours p ↔ adjacent p n.
Proof.
  unfold neighbours, adjacent. rewrite !elem_of_cons, elem_of_nil.
  destruct p as [a b], n as [c d]. cbn. split.
  - intros [[= -> ->]|[[= -> ->]|[[= -> ->]|[[= -> ->]|[]]]]]; lia.
  - intros [[-> [->| ->]]|[-> [->| ->]]]; tauto.
Qed.

Lemma fill_region_type self ty start q :
  fill_region self ty start q →
  _point_is_out_of_bound self q = false ∧ type_of (cells self) q = Some ty.
Proof. by intros []. Qed.

Lemma getitem_in_range {A} (l : list A) (i : Z) :
  0 ≤ i < Z.of_nat (length l) →
  ∃ a, l !! Z.to_nat i = Some a ∧ getitem l i = Returns a.
Proof.
  intros Hi. destruct (lookup_lt_is_Some_2 l (Z.to_nat i)) as [a Ha]; [lia|].
  exists a. split; [done|]. apply getitem_nonneg; [lia|done].
Qed.

(** Inside the bounds of a well-shaped canvas a cell can be read. *)
Lemma read_cell_in_bounds self p :
  well_shaped self → _point_is_out_of_bound self p = false →
  ∃ col c, cells self !! Z.to_nat (x p) = Some col
    ∧ col !! Z.to_nat (y p) = Some c
    ∧ read_cell (cells self) p = Returns c.
Proof.
  intros [Hlen Hcols] [Hx Hy]%out_of_bound_false.
  destruct (getitem_in_range (cells self) (x p)) as (col & Hcol & Hget); [lia|].
  assert (length col = Z.to_nat (height self)) as Hlc.
  { apply Hcols. by eapply list_elem_of_lookup_2. }
  destruct (getitem_in_range col (y p)) as (c & Hc & Hget'); [lia|].
  exists col, c. repeat split; [done..|].
  unfold read_cell. by rewrite Hget.
Qed.

(** Writing a cell keeps the shape, whether or not the write succeeds. *)
Lemma write_cell_shape self p v cs :
  well_shaped self → write_cell (cells self) p v = Returns cs →
  well_shaped (set_cells self cs).
Proof.
  intros [Hlen Hcols]. unfold write_cell, getitem, setitem.
  destruct (index (length (cells self)) (x p)) as [kx|] eqn:Hkx; [|done].
  destruct (cells self !! kx) as [col|] eqn:Hcol; [|done]. cbn.
  destruct (index (length col) (y p)) as [ky|]; [|done]. cbn.
  intros [= <-]. split; cbn.
  - by rewrite length_insert.
  - intros col' Hin. apply list_elem_of_lookup in Hin as [k Hk].
    destruct (decide (k = kx)) as [->|Hne].
    + rewrite list_lookup_insert_eq in Hk by (by eapply lookup_lt_Some).
      injection Hk as <-. rewrite length_insert. apply Hcols.
      by eapply list_elem_of_lookup_2.
    + rewrite list_lookup_insert_ne in Hk by done.
      apply Hcols. by eapply list_elem_of_lookup_2.
Qed.

(** Inside the bounds of a well-shaped canvas a write succeeds, changes the
    cell written and no other. *)
Lemma write_cell_in_bounds self p v :
  well_shaped self → _point_is_out_of_bound self p = false →
  ∃ cs, write_cell (cells self) p v = Returns cs
    ∧ read_cell cs p = Returns v
    ∧ ∀ q, _point_is_out_of_bound self q = false → q ≠ p →
        read_cell cs q = read_cell (cells self) q.
Proof.
  intros Hshape Hp.
  destruct (read_cell_in_bounds self p Hshape Hp) as (col & c & Hcol & Hc & _).
  pose proof Hshape as [Hlen Hcols].
  pose proof Hp as [Hx Hy]%out_of_bound_false.
  assert (length col = Z.to_nat (height self)) as Hlc.
  { apply Hcols. by eapply list_elem_of_lookup_2. }
  exists (<[Z.to_nat (x p) := <[Z.to_nat (y p) := v]> col]> (cells self)).
  split; [|split].
  - unfold write_cell. rewrite (getitem_nonneg _ _ col) by (lia || done). cbn.
    rewrite setitem_nonneg by lia. cbn. rewrite setitem_nonneg by lia. done.
  - unfold read_cell.
    rewrite (getitem_nonneg _ _ (<[Z.to_nat (y p) := v]> col)); cbn.
    + apply getitem_nonneg; [lia|]. apply list_lookup_insert_eq. lia.
    + lia.
    + apply list_lookup_insert_eq. lia.
  - intros q Hq Hne.
    destruct (read_cell_in_bounds self q Hshape Hq) as (colq & cq & Hcolq & Hcq & ->).
    pose proof Hq as [Hqx Hqy]%out_of_bound_false.
    unfold read_cell.
    destruct (decide (Z.to_nat (x q) = Z.to_nat (x p))) as [Hxe|Hxne].
    + rewrite Hxe in Hcolq. assert (colq = col) as -> by congruence.
      rewrite (getitem_nonneg _ _ (<[Z.to_nat (y p) := v]> col)); cbn.
      * apply getitem_nonneg; [lia|]. rewrite list_lookup_insert_ne; [done|].
        intros Hye. apply Hne. destruct p, q; cbn in *. f_equal; lia.
      * lia.
      * rewrite Hxe. apply list_lookup_insert_eq. lia.
    + rewrite (getitem_nonneg _ _ colq); cbn.
      * apply getitem_nonneg; [lia|done].
      * lia.
      * by rewrite list_lookup_insert_ne.
Qed.

(** *** The queue *)

Lemma elem_of_enqueue self processed to_process n q :
  q ∈ enqueue self processed to_process n ↔
  q ∈ to_process
  ∨ (q = n ∧ (n ∉ processed) ∧ _point_is_out_of_bound self n = false).
Proof.
  unfold enqueue.
  destruct (can_process_cell self processed to_process n) eqn:Hcan;
    unfold can_process_cell in Hcan.
  - rewrite !andb_true_iff, !negb_true_iff in Hcan.
    destruct Hcan as [[Hp Ht] Hb]. apply bool_decide_eq_false in Hp.
    rewrite elem_of_cons. split; [intros [->|?]; auto|]. intros [?|[-> _]]; auto.
  - split; [auto|]. intros [?|(-> & Hp & Hb)]; [done|].
    rewrite !andb_false_iff, !negb_false_iff, !bool_decide_eq_true in Hcan.
    destruct Hcan as [[?|?]|?]; [done|done|congruence].
Qed.

Lemma elem_of_enqueue_all self processed ns to_process q :
  q ∈ foldl (enqueue self processed) to_process ns ↔
  q ∈ to_process
  ∨ (q ∈ ns ∧ (q ∉ processed) ∧ _point_is_out_of_bound self q = false).
Proof.
  revert to_process. induction ns as [|n ns IH]; intros to_process; cbn.
  - split; [auto|]. intros [?|[[]%elem_of_nil _]]. done.
  - rewrite IH, elem_of_enqueue, elem_of_cons. split.
    + intros [[?|(-> & ? & ?)]|(? & ? & ?)]; auto.
    + intros [?|([->|?] & ? & ?)]; auto.
Qed.

(** *** The invariant of the loop of [_bucket_fill] *)

Section flood_fill.
Variables (self0 : Canvas) (ty : CanvasCellContentType.t) (colour : string)
          (start : Point).
Hypothesis start_in_bounds : _point_is_out_of_bound self0 start = false.
Hypothesis start_type : type_of (cells self0) start = Some ty.

#[local] Abbreviation inv := (fill_inv self0 ty colour start).

Lemma fill_inv_init :
  well_shaped self0 → inv ∅ [start] self0.
Proof using start_in_bounds.
  intros Hshape. split.
  - apply same_frame_refl.
  - done.
  - intros q Hq. by apply not_elem_of_empty in Hq.
  - done.
  - intros q [Hq|Hq]; [by apply not_elem_of_empty in Hq|].
    apply list_elem_of_singleton in Hq as ->. auto.
  - intros r n Hr. by apply not_elem_of_empty in Hr.
  - right. by apply list_elem_of_singleton.
Qed.

(** A point that the loop has reached and that has the type to fill belongs
    to the region. *)
Lemma reached_in_region q :
  _point_is_out_of_bound self0 q = false →
  (q = start ∨ ∃ r, fill_region self0 ty start r ∧ adjacent r q) →
  type_of (cells self0) q = Some ty →
  fill_region self0 ty start q.
Proof using start_in_bounds start_type.
  intros Hb [->|(r & Hr & Hadj)] Hty.
  - by apply fill_start.
  - by eapply fill_step.
Qed.

(** The type stored at a point inside the bounds never changes. *)
Lemma fill_inv_type processed to_process self q :
  inv processed to_process self →
  _point_is_out_of_bound self0 q = false →
  type_of (cells self) q = type_of (cells self0) q.
Proof.
  intros Hinv Hq.
  destruct (decide (q ∈ processed ∧ type_of (cells self0) q = Some ty))
    as [[Hp Hty]|Hno].
  - unfold type_of at 1. by rewrite (inv_painted Hinv q Hp Hty).
  - unfold type_of at 1 2. by rewrite (inv_untouched Hinv q Hq Hno).
Qed.

(** The iteration that takes from the queue a point of another type. *)
Lemma fill_inv_skip processed to_process self cur rest :
  inv processed to_process self →
  pop to_process = Some (cur, rest) →
  type_of (cells self0) cur ≠ Some ty →
  inv ({[cur]} ∪ processed) rest self.
Proof.
  intros Hinv ->%pop_Some Hty. split.
  - apply Hinv.
  - apply Hinv.
  - intros q [->%elem_of_singleton|Hq]%elem_of_union Hq'; [done|].
    by apply (inv_painted Hinv).
  - intros q Hq Hno. apply (inv_untouched Hinv q Hq).
    intros [Hp Hq']. apply Hno. split; [|done]. apply elem_of_union. by right.
  - intros q Hq. apply (inv_reached Hinv).
    rewrite elem_of_app, list_elem_of_singleton.
    destruct Hq as [[->%elem_of_singleton|?]%elem_of_union|?]; auto.
  - intros r n [->%elem_of_singleton|Hr]%elem_of_union Hr' Hadj Hn; [done|].
    destruct (inv_closed Hinv r n Hr Hr' Hadj Hn)
      as [?|[?| ->%list_elem_of_singleton]%elem_of_app];
      [left; apply elem_of_union; by right|by right
      |left; apply elem_of_union; left; by apply elem_of_singleton].
  - destruct (inv_start Hinv)
      as [?|[?| ->%list_elem_of_singleton]%elem_of_app];
      [left; apply elem_of_union; by right|by right
      |left; apply elem_of_union; left; by apply elem_of_singleton].
Qed.

(** The iteration that takes from the queue a point of the type to fill,
    paints it and queues its neighbours. *)
Lemma fill_inv_paint processed to_process self cur rest cs :
  inv processed to_process self →
  pop to_process = Some (cur, rest) →
  type_of (cells self0) cur = Some ty →
  write_cell (cells self) cur (ty, colour) = Returns cs →
  inv ({[cur]} ∪ processed)
    (foldl (enqueue (set_cells self cs) ({[cur]} ∪ processed)) rest (neighbours cur))
    (set_cells self cs).
Proof using start_in_bounds start_type.
  intros Hinv ->%pop_Some Hty Hwrite.
  assert (Hcur : _point_is_out_of_bound self0 cur = false
                 ∧ fill_region self0 ty start cur).
  { destruct (inv_reached Hinv cur) as [Hb Hr].
    - right. apply elem_of_app. right. by apply list_elem_of_singleton.
    - split; [done|]. by apply reached_in_region. }
  destruct Hcur as [Hcurb Hcurr].
  pose proof (inv_frame Hinv) as Hframe.
  pose proof (inv_shape Hinv) as Hshape.
  assert (Hbound : ∀ q, _point_is_out_of_bound (set_cells self cs) q
                        = _point_is_out_of_bound self0 q).
  { intros q. apply out_of_bound_same_frame.
    eapply same_frame_trans; [exact Hframe|apply same_frame_set_cells]. }
  assert (Hbound' : ∀ q, _point_is_out_of_bound self q
                         = _point_is_out_of_bound self0 q).
  { intros q. by apply out_of_bound_same_frame. }
  destruct (write_cell_in_bounds self cur (ty, colour) Hshape)
    as (cs' & Hwrite' & Hread & Hother); [by rewrite Hbound'|].
  rewrite Hwrite in Hwrite'. injection Hwrite' as <-.
  split.
  - eapply same_frame_trans; [exact Hframe|apply same_frame_set_cells].
  - by eapply write_cell_shape.
  - intros q Hq Hq'. cbn. destruct (decide (q = cur)) as [->|Hne]; [done|].
    assert (q ∈ processed) as Hp.
    { apply elem_of_union in Hq as [Hq|Hq]; [|done].
      by apply elem_of_singleton in Hq. }
    rewrite Hother; [by apply (inv_painted Hinv)| |done].
    rewrite Hbound'. apply (inv_reached Hinv). by left.
  - intros q Hq Hno. cbn.
    assert (q ≠ cur) as Hne.
    { intros ->. apply Hno. split; [|done]. apply elem_of_union. left.
      by apply elem_of_singleton. }
    rewrite Hother; [|by rewrite Hbound'|done].
    apply (inv_untouched Hinv q Hq).
    intros [Hp Hq']. apply Hno. split; [|done]. apply elem_of_union. by right.
  - intros q Hq.
    assert (Hold : q ∈ processed ∨ q ∈ rest ++ [cur] →
                   _point_is_out_of_bound self0 q = false
                   ∧ (q = start ∨ ∃ r, fill_region self0 ty start r ∧ adjacent r q))
      by apply (inv_reached Hinv).
    rewrite elem_of_app, list_elem_of_singleton in Hold.
    rewrite elem_of_union, elem_of_singleton, elem_of_enqueue_all in Hq.
    destruct Hq as [[->|?]|[?|(Hn & _ & Hb)]]; [auto..|].
    rewrite Hbound in Hb. split; [done|]. right. exists cur.
    split; [done|]. by apply elem_of_neighbours.
  - intros r n Hr Hr' Hadj Hn.
    rewrite elem_of_enqueue_all.
    apply elem_of_union in Hr as [->%elem_of_singleton|Hr].
    + destruct (decide (n ∈ {[cur]} ∪ processed)) as [?|Hnp]; [by left|].
      right. right. rewrite Hbound. by rewrite elem_of_neighbours.
    + destruct (inv_closed Hinv r n Hr Hr' Hadj Hn)
        as [?|[?| ->%list_elem_of_singleton]%elem_of_app].
      * left. apply elem_of_union. by right.
      * right. by left.
      * left. apply elem_of_union. left. by apply elem_of_singleton.
  - rewrite elem_of_enqueue_all.
    destruct (inv_start Hinv)
      as [?|[?| ->%list_elem_of_singleton]%elem_of_app].
    + left. apply elem_of_union. by right.
    + right. by left.
    + left. apply elem_of_union. left. by apply elem_of_singleton.
Qed.

(** When the queue is empty the painted cells are those of the region. *)
Lemma fill_inv_final processed self q :
  inv processed [] self →
  _point_is_out_of_bound self0 q = false →
  (fill_region self0 ty start q → read_cell (cells self) q = Returns (ty, colour))
  ∧ (¬ fill_region self0 ty start q →
     read_cell (cells self) q = read_cell (cells self0) q).
Proof using start_in_bounds start_type.
  intros Hinv Hq. split.
  - intros Hreg.
    assert (q ∈ processed) as Hp.
    { clear Hq. induction Hreg as [|q n Hreg IH Hadj Hn Hty].
      - destruct (inv_start Hinv) as [?|[]%elem_of_nil]. done.
      - apply fill_region_type in Hreg as [_ Hqty].
        destruct (inv_closed Hinv q n IH Hqty Hadj Hn) as [?|[]%elem_of_nil].
        done. }
    apply (inv_painted Hinv q Hp).
    by apply fill_region_type in Hreg as [_ ?].
  - intros Hno. apply (inv_untouched Hinv q Hq).
    intros [Hp Hty]. apply Hno.
    destruct (inv_reached Hinv q) as [_ Hr]; [by left|].
    by apply reached_in_region.
Qed.

(** From a state that satisfies the invariant the loop, if it ends, returns
    with the invariant and an empty queue. *)
Lemma _bucket_fill_loop_inv fuel :
  ∀ processed to_process self r,
    inv processed to_process self →
    _bucket_fill_loop fuel ty colour false processed to_process self = Some r →
    r.1 = Returns tt ∧ ∃ processed', inv processed' [] r.2.
Proof using start_in_bounds start_type.
  induction fuel as [|fuel IH]; intros processed to_process self r Hinv; cbn.
  - destruct (pop to_process) as [[cur rest]|] eqn:Hpop; [done|].
    intros [= <-]. apply pop_None in Hpop as ->. split; [done|]. by exists processed.
  - destruct (pop to_process) as [[cur rest]|] eqn:Hpop;
      [|intros [= <-]; apply pop_None in Hpop as ->; split; [done|]; by exists processed].
    assert (Hcur : _point_is_out_of_bound self0 cur = false).
    { apply (inv_reached Hinv). right. apply pop_Some in Hpop as ->.
      apply elem_of_app. right. by apply list_elem_of_singleton. }
    assert (Hcur' : _point_is_out_of_bound self cur = false).
    { by rewrite (out_of_bound_same_frame self0 self cur (inv_frame Hinv)). }
    pose proof (fill_inv_type _ _ _ cur Hinv Hcur) as Htype.
    destruct (read_cell_in_bounds self cur (inv_shape Hinv) Hcur')
      as (col & [cty c] & _ & _ & Hread).
    unfold type_of at 1 in Htype. rewrite Hread in *. cbn in Htype.
    case_bool_decide as Hty.
    + subst cty.
      destruct (write_cell_in_bounds self cur (ty, colour) (inv_shape Hinv) Hcur')
        as (cs & Hwrite & _).
      rewrite Hwrite. apply IH. by eapply fill_inv_paint.
    + apply IH. eapply fill_inv_skip; [done..|]. congruence.
Qed.

End flood_fill.

Lemma fill_region_saved self ty start q :
  fill_region (saved self) ty start q ↔ fill_region self ty start q.
Proof.
  split; induction 1; (by apply fill_start) || (by eapply fill_step).
Qed.

(** On a well-shaped canvas, [bucket_fill] from a point inside the bounds
    returns; the cells of the region of the start point get its content type
    and the fill colour, every other cell inside the bounds is as before, and
    so are the dimensions; the old cells have been saved. *)
Theorem bucket_fill_paints_region (self : Canvas) (p : Point) (colour : string) :
  well_shaped self →
  _point_is_out_of_bound self p = false →
  ∃ ty c self',
    read_cell (cells self) p = Returns (ty, c)
    ∧ bucket_fill p colour self = Some (Returns tt, self')
    ∧ same_frame (saved self) self'
    ∧ well_shaped self'
    ∧ ∀ q, 0 ≤ x q < width self ∧ 0 ≤ y q < height self →
        (fill_region self ty p q →
           read_cell (cells self') q = Returns (ty, colour))
        ∧ (¬ fill_region self ty p q →
           read_cell (cells self') q = read_cell (cells self) q).
Proof.
  intros Hshape Hp.
  destruct (read_cell_in_bounds self p Hshape Hp) as (col & [ty c] & _ & _ & Hread).
  destruct (run_terminates (BucketFill p colour) self) as [[o self'] Hrun].
  pose proof Hrun as Hrun'.
  unfold run, bucket_fill in Hrun'. rewrite Hp in Hrun'.
  unfold _save_state, _bucket_fill in Hrun'. fold (saved self) in Hrun'.
  change (cells (saved self)) with (cells self) in Hrun'.
  rewrite Hread in Hrun'.
  assert (Hty : type_of (cells (saved self)) p = Some ty).
  { unfold type_of. cbn. by rewrite Hread. }
  destruct (_bucket_fill_loop_inv (saved self) ty colour p Hp Hty _ _ _ _ _
              (fill_inv_init (saved self) ty colour p Hp Hshape) Hrun')
    as [Ho [processed Hinv]].
  cbn in Ho. subst o.
  exists ty, c, self'. split; [done|]. split; [done|].
  split; [apply Hinv|]. split; [apply Hinv|].
  intros q Hq%out_of_bound_false.
  destruct (fill_inv_final (saved self) ty colour p Hp Hty processed self' q Hinv Hq)
    as [Hin Hout].
  rewrite !fill_region_saved in *. done.
Qed.

Lemma bucket_fill_paints_region_witness :
  ∃ ty c self', read_cell (cells (blank 2)) (mkPoint 0 0) = Returns (ty, c)
    ∧ bucket_fill (mkPoint 0 0) "o" (blank 2) = Some (Returns tt, self').
Proof.
  destruct (bucket_fill_paints_region (blank 2) (mkPoint 0 0) "o")
    as (ty & c & self' & Hread & Hrun & _).
  - split; [reflexivity|]. intros col Hcol.
    repeat (apply elem_of_cons in Hcol as [->|Hcol]; [reflexivity|]).
    by apply elem_of_nil in Hcol.
  - reflexivity.
  - by exists ty, c, self'.
Defined.

(** *** Square canvases *)

Lemma well_shaped_same self self' :
  width self' = width self → height self' = height self →
  cells self' = cells self → well_shaped self → well_shaped self'.
Proof. unfold well_shaped. by intros -> -> ->. Qed.

Lemma blank_well_formed n : well_formed (blank n).
Proof.
  split; [|by apply Forall_nil]. split; cbn.
  - by rewrite length_replicate, Nat2Z.id.
  - intros col [-> _]%elem_of_replicate. by rewrite length_replicate, Nat2Z.id.
Qed.

Lemma _draw_point_shape p self :
  well_shaped self → well_shaped (_draw_point p self).2.
Proof.
  intros Hshape. unfold _draw_point.
  destruct (write_cell _ _ _) as [cs|e] eqn:Hw; [|done].
  by eapply write_cell_shape.
Qed.

Lemma for_each_shape {A} (body : A → method unit) (l : list A) :
  (∀ a self, well_shaped self → well_shaped (body a self).2) →
  ∀ self, well_shaped self → well_shaped (for_each l body self).2.
Proof.
  intros Hbody. induction l as [|a l IH]; intros self Hshape; cbn; [done|].
  unfold then_. specialize (Hbody a self Hshape).
  destruct (body a self) as [[[]|e] self1]; cbn in *; [|done].
  by apply IH.
Qed.

Lemma _draw_line_shape line self :
  well_shaped self → well_shaped (_draw_line line self).2.
Proof.
  intros Hshape. unfold _draw_line. destruct (get_points line); [|done].
  apply for_each_shape; [|done]. apply _draw_point_shape.
Qed.

Lemma _bucket_fill_loop_shape fuel ty colour reset :
  ∀ processed to_process self r,
    _bucket_fill_loop fuel ty colour reset processed to_process self = Some r →
    well_shaped self → well_shaped r.2.
Proof.
  induction fuel as [|fuel IH]; intros processed to_process self r; cbn.
  - destruct (pop to_process) as [[]|]; [done|]. by intros [= <-].
  - destruct (pop to_process) as [[cur rest]|]; [|by intros [= <-]].
    destruct (read_cell _ _) as [[cty ?]|e]; [|by intros [= <-]].
    case_bool_decide; [|by apply IH].
    destruct (write_cell _ _ _) as [cs|e] eqn:Hw; [|by intros [= <-]].
    intros Hr Hshape. eapply IH; [exact Hr|]. by eapply write_cell_shape.
Qed.

Lemma _bucket_fill_shape p colour reset self r :
  _bucket_fill p colour reset self = Some r →
  well_shaped self → well_shaped r.2.
Proof.
  unfold _bucket_fill. destruct (read_cell _ _) as [[ty ?]|e].
  - apply _bucket_fill_loop_shape.
  - by intros [= <-].
Qed.

Lemma run_shape c self r :
  run c self = Some r → well_shaped self → well_shaped r.2.
Proof.
  intros Hrun Hshape.
  assert (Hsaved : well_shaped (saved self)) by done.
  destruct c as [line|rect|p colour|p]; cbn in Hrun.
  - injection Hrun as <-. unfold draw_line.
    destruct (_ || _); [done|]. by apply (_draw_line_shape line (saved self)).
  - injection Hrun as <-. unfold draw_rectangle.
    destruct (_ || _); [done|].
    apply (for_each_shape _draw_line (get_lines rect) _draw_line_shape (saved self) Hsaved).
  - unfold bucket_fill in Hrun.
    destruct (_point_is_out_of_bound self p); [by injection Hrun as <-|].
    by apply (_bucket_fill_shape _ _ _ (saved self) r Hrun).
  - unfold delete in Hrun.
    destruct (_point_is_out_of_bound self p); [by injection Hrun as <-|].
    by apply (_bucket_fill_shape _ _ _ (saved self) r Hrun).
Qed.

(** After a call the saved states are the old ones, possibly followed by the
    old cells. *)
Lemma run_history c self r :
  run c self = Some r →
  width r.2 = width self ∧ height r.2 = height self
  ∧ (_previous_states r.2 = _previous_states self
     ∨ _previous_states r.2 = _previous_states self ++ [cells self]).
Proof.
  intros Hrun.
  destruct (decide (Forall (λ p, _point_is_out_of_bound self p = false)
                           (checked_points c))) as [Hok|Hko].
  - destruct (run_guard_passed c self Hok r Hrun) as (? & ? & ?). auto.
  - apply not_Forall_Exists in Hko; [|intros ?; apply _].
    rewrite run_guard_failed in Hrun.
    + injection Hrun as <-. auto.
    + eapply Exists_impl; [exact Hko|]. cbn. intros q.
      by destruct (_point_is_out_of_bound self q).
Qed.

Lemma run_well_formed c self r :
  run c self = Some r → well_formed self → well_formed r.2.
Proof.
  intros Hrun [Hshape Hhist]. split; [by eapply run_shape|].
  destruct (run_history c self r Hrun) as (Hw & Hh & [Hp|Hp]); rewrite Hp.
  - eapply Forall_impl; [exact Hhist|]. cbn. intros cs.
    unfold well_shaped. cbn. by rewrite Hw, Hh.
  - apply Forall_app. split.
    + eapply Forall_impl; [exact Hhist|]. cbn. intros cs.
      unfold well_shaped. cbn. by rewrite Hw, Hh.
    + apply Forall_singleton. unfold well_shaped. cbn. by rewrite Hw, Hh.
Qed.

Lemma undo_well_formed self : well_formed self → well_formed (undo self).2.
Proof.
  intros [Hshape Hhist]. unfold undo.
  destruct (pop (_previous_states self)) as [[state rest]|] eqn:Hpop; [|done].
  apply pop_Some in Hpop. rewrite Hpop in Hhist.
  apply Forall_app in Hhist as [Hrest Hstate].
  rewrite Forall_singleton in Hstate. split; [exact Hstate|exact Hrest].
Qed.

(** A canvas reached from [Canvas(n, n)] is [n] by [n] and well shaped. *)
Lemma reachable_well_formed n self :
  reachable n self →
  width self = Z.of_nat n ∧ height self = Z.of_nat n ∧ well_formed self.
Proof.
  induction 1 as [|c self r _ (Hw & Hh & Hwf) Hrun|self _ (Hw & Hh & Hwf)].
  - split; [done|]. split; [done|]. apply blank_well_formed.
  - destruct (run_history c self r Hrun) as (Hw' & Hh' & _).
    split; [congruence|]. split; [congruence|]. by eapply run_well_formed.
  - split; [|split; [|by apply undo_well_formed]];
      unfold undo; by destruct (pop _) as [[]|].
Qed.

(** On every canvas reached from a square one, [bucket_fill] from a point
    inside the bounds returns, paints the region of that point with the fill
    colour and keeps its content type, and leaves every other cell inside
    the bounds as it was. *)
Theorem bucket_fill_on_square_canvas (n : nat) (self : Canvas) (p : Point)
    (colour : string) :
  reachable n self →
  0 ≤ x p < Z.of_nat n → 0 ≤ y p < Z.of_nat n →
  ∃ ty c self',
    read_cell (cells self) p = Returns (ty, c)
    ∧ bucket_fill p colour self = Some (Returns tt, self')
    ∧ ∀ q, 0 ≤ x q < Z.of_nat n → 0 ≤ y q < Z.of_nat n →
        (fill_region self ty p q →
           read_cell (cells self') q = Returns (ty, colour))
        ∧ (¬ fill_region self ty p q →
           read_cell (cells self') q = read_cell (cells self) q).
Proof.
  intros (Hw & Hh & [Hshape _])%reachable_well_formed Hx Hy.
  destruct (bucket_fill_paints_region self p colour Hshape)
    as (ty & c & self' & Hread & Hrun & _ & _ & Hcells).
  { apply out_of_bound_false. lia. }
  exists ty, c, self'. split; [done|]. split; [done|].
  intros q Hqx Hqy. apply Hcells. lia.
Qed.

Lemma bucket_fill_on_square_canvas_witness :
  ∃ ty c self',
    read_cell (cells (blank 3)) (mkPoint 1 1) = Returns (ty, c)
    ∧ bucket_fill (mkPoint 1 1) "o" (blank 3) = Some (Returns tt, self').
Proof.
  destruct (bucket_fill_on_square_canvas 3 (blank 3) (mkPoint 1 1) "o")
    as (ty & c & self' & Hread & Hrun & _).
  - apply reach_init.
  - cbn. lia.
  - cbn. lia.
  - by exists ty, c, self'.
Defined.

(** * Further properties *)

(** ** Points, lines and rectangles as values *)





(** ** More on undo *)

(** A call that has passed its guard can be undone whatever its outcome: also
    when it raised after the state was saved, [undo] gives back the canvas as
    it was before the call. *)
Theorem undo_rolls_back_any_call (c : call) (self self' : Canvas)
    (o : outcome unit) :
  (∀ p, p ∈ checked_points c →
        0 ≤ x p < width self ∧ 0 ≤ y p < height self) →
  run c self = Some (o, self') →
  undo self' = (Returns tt, self).
Proof.
  intros Hok Hrun. apply undo_after_saved.
  apply (run_guard_passed c self) in Hrun; [done|].
  apply Forall_forall. intros p Hp. by apply out_of_bound_false, Hok.
Qed.

Lemma undo_rolls_back_any_call_witness :
  ∃ self',
    run (BucketFill (mkPoint 0 0) "o")
        (mkCanvas 2 1 [[(CanvasCellContentType.Empty, " "%string);
                        (CanvasCellContentType.Empty, " "%string)]] [])
    = Some (Raises IndexError, self')
    ∧ undo self' =
      (Returns tt,
       mkCanvas 2 1 [[(CanvasCellContentType.Empty, " "%string);
                      (CanvasCellContentType.Empty, " "%string)]] []).
Proof.
  eexists. split; [reflexivity|].
  eapply (undo_rolls_back_any_call (BucketFill (mkPoint 0 0) "o")).
  - intros p Hp. cbn in Hp. apply list_elem_of_singleton in Hp as ->. cbn. lia.
  - reflexivity.
Defined.

(** The saved states form a stack of any depth: after a sequence of calls
    that all returned, as many [undo] as there were calls give back the
    canvas the sequence started from. *)
Theorem undo_unwinds_replay (calls : list call) (self self' : Canvas) :
  replay calls self = Some self' →
  Nat.iter (length calls) (λ s, (undo s).2) self' = self.
Proof.
  revert self. induction calls as [|c calls IH]; intros self; cbn [replay length].
  - by intros [= ->].
  - destruct (run c self) as [[[[]|e] self1]|] eqn:Hrun; [|done..].
    intros Hrest. rewrite Nat.iter_succ, (IH self1 Hrest).
    assert (Hundo : undo self1 = (Returns tt, self)); [|by rewrite Hundo].
    apply undo_after_saved.
    destruct (decide (Forall (λ p, _point_is_out_of_bound self p = false)
                             (checked_points c))) as [Hok|Hko].
    + apply (run_guard_passed c self Hok _ Hrun).
    + apply not_Forall_Exists in Hko; [|intros ?; apply _].
      rewrite run_guard_failed in Hrun; [done|].
      eapply Exists_impl; [exact Hko|]. cbn. intros q.
      by destruct (_point_is_out_of_bound self q).
Qed.

Lemma undo_unwinds_replay_witness :
  snd (undo (snd (undo (snd (draw_rectangle
                                 (mkRectangle (mkPoint 0 0) (mkPoint 1 1))
                                 (snd (draw_line (mkLine (mkPoint 2 0) (mkPoint 2 2))
                                         (blank 3))))))))
  = blank 3.
Proof.
  apply (undo_unwinds_replay
           [DrawLine (mkLine (mkPoint 2 0) (mkPoint 2 2));
            DrawRectangle (mkRectangle (mkPoint 0 0) (mkPoint 1 1))]
           (blank 3)).
  vm_compute. reflexivity.
Defined.

(** ** The flood fill ends *)

(** From any canvas and any start point the loop of [_bucket_fill] ends
    within [2 * width * height + 1] iterations: that much fuel gives a
    result, and more fuel gives the same one. *)
Theorem flood_fill_loop_bounded (ty : CanvasCellContentType.t) (colour : string)
    (reset : bool) (p : Point) (self : Canvas) (fuel : nat) :
  (S (2 * (Z.to_nat (width self) * Z.to_nat (height self))) ≤ fuel)%nat →
  ∃ r,
    _bucket_fill_loop (S (2 * (Z.to_nat (width self) * Z.to_nat (height self))))
      ty colour reset ∅ [p] self = Some r
    ∧ _bucket_fill_loop fuel ty colour reset ∅ [p] self = Some r.
Proof.
  intros Hfuel.
  destruct (_bucket_fill_loop_terminates (enough_fuel self) ty colour reset
              ∅ [p] self (work_left_start self p)) as [r Hr].
  exists r. split; [exact Hr|].
  eapply _bucket_fill_loop_fuel_mono; [|exact Hr]. exact Hfuel.
Qed.

Lemma flood_fill_loop_bounded_witness :
  ∃ r,
    _bucket_fill_loop 19 CanvasCellContentType.Empty "o" false ∅ [mkPoint 0 0]
      (blank 3) = Some r
    ∧ _bucket_fill_loop 40 CanvasCellContentType.Empty "o" false ∅ [mkPoint 0 0]
        (blank 3) = Some r.
Proof.
  apply (flood_fill_loop_bounded CanvasCellContentType.Empty "o" false
           (mkPoint 0 0) (blank 3) 40).
  cbn. lia.
Defined.

(** ** The shape of a square canvas is kept *)



(** ** What drawing writes *)

Lemma get_points_on_line line points :
  get_points line = Returns points →
  ∀ q, q ∈ points ↔ on_line line q.
Proof.
  destruct line as [[fx fy] [tx ty]].
  unfold get_points, _is_horizontal, _is_vertical, on_line; cbn.
  case_bool_decide as Hx; [|case_bool_decide as Hy; [|done]];
    intros [= <-] [qx qy]; rewrite list_elem_of_fmap; cbn; split.
  - intros (z & [= -> ->] & Hz%elem_of_range). lia.
  - intros H. exists qy. split; [f_equal; lia|]. apply elem_of_range. lia.
  - intros (z & [= -> ->] & Hz%elem_of_range). lia.
  - intros H. exists qx. split; [f_equal; lia|]. apply elem_of_range. lia.
Qed.

Lemma on_line_in_bounds self line q :
  _point_is_out_of_bound self (from_point line) = false →
  _point_is_out_of_bound self (to_point line) = false →
  on_line line q → _point_is_out_of_bound self q = false.
Proof. rewrite !out_of_bound_false. unfold on_line. lia. Qed.

(** On a well-shaped canvas, drawing points inside the bounds returns, marks
    these points and leaves the other cells inside the bounds as they were. *)
Lemma draw_points_effect points :
  ∀ self,
    well_shaped self →
    Forall (λ p, _point_is_out_of_bound self p = false) points →
    ∃ self',
      for_each points _draw_point self = (Returns tt, self')
      ∧ same_frame self self'
      ∧ well_shaped self'
      ∧ ∀ q, _point_is_out_of_bound self q = false →
          (q ∈ points →
             read_cell (cells self') q
             = Returns (CanvasCellContentType.Line, "x"%string))
          ∧ (q ∉ points → read_cell (cells self') q = read_cell (cells self) q).
Proof.
  induction points as [|p points IH]; intros self Hshape Hall.
  - exists self. split; [done|]. split; [apply same_frame_refl|]. split; [done|].
    intros q _. split; [by intros ?%elem_of_nil|done].
  - apply Forall_cons in Hall as [Hp Hall].
    destruct (write_cell_in_bounds self p (CanvasCellContentType.Line, "x"%string)
                Hshape Hp) as (cs & Hwrite & Hread & Hother).
    pose proof (write_cell_shape self p _ cs Hshape Hwrite) as Hshape1.
    destruct (IH (set_cells self cs) Hshape1) as (self' & Hrun & Hframe & Hshape' & Hcells).
    { eapply Forall_impl; [exact Hall|]. done. }
    exists self'. split; [|split; [|split; [done|]]].
    + cbn. unfold then_, _draw_point. by rewrite Hwrite.
    + eapply same_frame_trans; [apply same_frame_set_cells|exact Hframe].
    + intros q Hq. destruct (Hcells q Hq) as [Hin Hout]. split.
      * intros [->|Hqp]%elem_of_cons; [|by apply Hin].
        destruct (decide (p ∈ points)) as [Hpp|Hpp]; [by apply Hin|].
        rewrite (Hout Hpp). exact Hread.
      * intros Hnot. rewrite not_elem_of_cons in Hnot. destruct Hnot as [Hne Hnot].
        rewrite (Hout Hnot). cbn. by apply Hother.
Qed.

(** Drawing lines that all have points is drawing their points in turn. *)
Lemma draw_lines_as_points lines :
  Forall (λ line, ∃ points, get_points line = Returns points) lines →
  ∀ self, for_each lines _draw_line self
          = for_each (concat (map line_points lines)) _draw_point self.
Proof.
  induction lines as [|line lines IH]; intros Hall self; [done|].
  apply Forall_cons in Hall as [[points Hpoints] Hall].
  cbn [map concat for_each]. rewrite for_each_app.
  unfold then_, _draw_line, line_points. rewrite Hpoints.
  destruct (for_each points _draw_point self) as [[[]|?] ?]; [|done].
  by apply IH.
Qed.

Lemma draw_line_well_shaped self line :
  well_shaped self →
  _point_is_out_of_bound self (from_point line) = false →
  _point_is_out_of_bound self (to_point line) = false →
  x (from_point line) = x (to_point line)
  ∨ y (from_point line) = y (to_point line) →
  ∃ self',
    draw_line line self = (Returns tt, self')
    ∧ ∀ q, _point_is_out_of_bound self q = false →
        (on_line line q →
           read_cell (cells self') q
           = Returns (CanvasCellContentType.Line, "x"%string))
        ∧ (¬ on_line line q → read_cell (cells self') q = read_cell (cells self) q).
Proof.
  intros Hshape Hf Ht Haxis.
  destruct (get_points line) as [points|e] eqn:Hpoints.
  2: { apply get_points_Raises in Hpoints. lia. }
  pose proof (get_points_on_line line points Hpoints) as Hon.
  destruct (draw_points_effect points (saved self) Hshape)
    as (self' & Hrun & _ & _ & Hcells).
  { apply Forall_forall. intros q Hq%Hon.
    by apply (on_line_in_bounds self line q). }
  exists self'. split.
  - unfold draw_line. rewrite Hf, Ht. cbn [orb].
    unfold then_, _save_state, _draw_line. rewrite Hpoints. exact Hrun.
  - intros q Hq. rewrite <- Hon. by apply Hcells.
Qed.

(** On a canvas reached from [Canvas(n, n)], [draw_line] with an
    axis-aligned line between two points of the canvas returns; the cells
    from the first end up to the second are marked [(Line, 'x')] and every
    other cell is as before. *)
Theorem draw_line_on_square_canvas (n : nat) (self : Canvas) (line : Line) :
  reachable n self →
  0 ≤ x (from_point line) < Z.of_nat n → 0 ≤ y (from_point line) < Z.of_nat n →
  0 ≤ x (to_point line) < Z.of_nat n → 0 ≤ y (to_point line) < Z.of_nat n →
  x (from_point line) = x (to_point line)
  ∨ y (from_point line) = y (to_point line) →
  ∃ self',
    draw_line line self = (Returns tt, self')
    ∧ ∀ q, 0 ≤ x q < Z.of_nat n → 0 ≤ y q < Z.of_nat n →
        (on_line line q →
           read_cell (cells self') q
           = Returns (CanvasCellContentType.Line, "x"%string))
        ∧ (¬ on_line line q → read_cell (cells self') q = read_cell (cells self) q).
Proof.
  intros (Hw & Hh & [Hshape _])%reachable_well_formed Hfx Hfy Htx Hty Haxis.
  destruct (draw_line_well_shaped self line Hshape) as (self' & Hrun & Hcells);
    [apply out_of_bound_false; lia..|done|].
  exists self'. split; [done|]. intros q Hqx Hqy. apply Hcells.
  apply out_of_bound_false. lia.
Qed.

Lemma draw_line_on_square_canvas_witness :
  ∃ self',
    draw_line (mkLine (mkPoint 3 3) (mkPoint 3 35)) (blank 50) = (Returns tt, self')
    ∧ read_cell (cells self') (mkPoint 3 20)
      = Returns (CanvasCellContentType.Line, "x"%string)
    ∧ read_cell (cells self') (mkPoint 4 20)
      = read_cell (cells (blank 50)) (mkPoint 4 20).
Proof.
  destruct (draw_line_on_square_canvas 50 (blank 50)
              (mkLine (mkPoint 3 3) (mkPoint 3 35)))
    as (self' & Hrun & Hcells); [apply reach_init|cbn; lia..|by left|].
  exists self'. split; [exact Hrun|]. split.
  - apply (Hcells (mkPoint 3 20)); [cbn; lia..|]. left. cbn. lia.
  - apply (Hcells (mkPoint 4 20)); [cbn; lia..|]. unfold on_line. cbn. lia.
Defined.

(** On any canvas, a line between two points of the canvas whose first end
    lies after the second one on their common axis has no points:
    [draw_line] returns, saves the state and writes nothing. *)
Theorem draw_line_reversed_writes_nothing (self : Canvas) (line : Line) :
  _point_is_out_of_bound self (from_point line) = false →
  _point_is_out_of_bound self (to_point line) = false →
  (x (from_point line) = x (to_point line)
   ∧ y (to_point line) < y (from_point line))
  ∨ (y (from_point line) = y (to_point line)
     ∧ x (to_point line) < x (from_point line)) →
  get_points line = Returns []
  ∧ draw_line line self =
    (Returns tt,
     mkCanvas (width self) (height self) (cells self)
              (_previous_states self ++ [cells self])).
Proof.
  intros Hf Ht Hrev.
  assert (Hpoints : get_points line = Returns []).
  { destruct line as [[fx fy] [tx ty]]. cbn in Hrev.
    unfold get_points, _is_horizontal, _is_vertical, range; cbn.
    repeat case_bool_decide; try lia; f_equal.
    - replace (Z.to_nat (ty + 1 - fy)) with 0%nat by lia. done.
    - replace (Z.to_nat (tx + 1 - fx)) with 0%nat by lia. done. }
  split; [done|].
  unfold draw_line. rewrite Hf, Ht. cbn [orb].
  unfold then_, _save_state, _draw_line. by rewrite Hpoints.
Qed.

Lemma draw_line_reversed_writes_nothing_witness :
  draw_line (mkLine (mkPoint 1 5) (mkPoint 1 1)) (blank 6)
  = (Returns tt, mkCanvas 6 6 (cells (blank 6)) [cells (blank 6)]).
Proof.
  apply (draw_line_reversed_writes_nothing (blank 6)
           (mkLine (mkPoint 1 5) (mkPoint 1 1)));
    [reflexivity|reflexivity|left; cbn; lia].
Defined.

(** The points of the four lines of a rectangle are those of its border. *)
Lemma get_lines_on_border rect q :
  (∃ line, line ∈ get_lines rect ∧ on_line line q) ↔ on_border rect q.
Proof.
  destruct rect as [[a b] [c d]], q as [qx qy].
  unfold get_lines, on_border, on_line; cbn. split.
  - intros (line & Hline & Hon).
    repeat (apply elem_of_cons in Hline as [->|Hline]);
      [..|by apply elem_of_nil in Hline]; cbn in Hon; lia.
  - intros [[[Hx|Hx] Hy]|[[Hy|Hy] Hx]].
    + eexists. split; [apply elem_of_cons; right; apply elem_of_cons; by left|].
      cbn. lia.
    + eexists. split; [do 2 (apply elem_of_cons; right); apply elem_of_cons; by left|].
      cbn. lia.
    + eexists. split; [apply elem_of_cons; by left|]. cbn. lia.
    + eexists. split; [do 3 (apply elem_of_cons; right); apply elem_of_cons; by left|].
      cbn. lia.
Qed.

Lemma get_lines_have_points rect :
  Forall (λ line, ∃ points, get_points line = Returns points) (get_lines rect).
Proof.
  destruct rect as [[a b] [c d]]. unfold get_lines. cbn.
  repeat apply Forall_cons_2; [..|apply Forall_nil_2];
    unfold get_points, _is_horizontal, _is_vertical; cbn;
    repeat case_bool_decide; eauto; done.
Qed.

Lemma elem_of_rectangle_points rect q :
  q ∈ concat (map line_points (get_lines rect)) ↔ on_border rect q.
Proof.
  rewrite <- get_lines_on_border, list_elem_of_In, in_concat. setoid_rewrite <- list_elem_of_In. split.
  - intros (points & (line & -> & Hline)%list_elem_of_fmap & Hq).
    exists line. split; [done|].
    unfold line_points in Hq. destruct (get_points line) as [pts|] eqn:Hpts.
    + by apply (get_points_on_line line pts Hpts).
    + by apply elem_of_nil in Hq.
  - intros (line & Hline & Hon).
    pose proof (get_lines_have_points rect) as Hall.
    eapply Forall_forall in Hall as [pts Hpts]; [|exact Hline].
    exists pts. split; [|by apply (get_points_on_line line pts Hpts)].
    apply list_elem_of_fmap. exists line. split; [|done].
    unfold line_points. by rewrite Hpts.
Qed.

Lemma on_border_in_bounds self rect q :
  _point_is_out_of_bound self (top_left_point rect) = false →
  _point_is_out_of_bound self (bottom_right_point rect) = false →
  on_border rect q → _point_is_out_of_bound self q = false.
Proof. rewrite !out_of_bound_false. unfold on_border. lia. Qed.

Lemma draw_rectangle_well_shaped self rect :
  well_shaped self →
  _point_is_out_of_bound self (top_left_point rect) = false →
  _point_is_out_of_bound self (bottom_right_point rect) = false →
  ∃ self',
    draw_rectangle rect self = (Returns tt, self')
    ∧ ∀ q, _point_is_out_of_bound self q = false →
        (on_border rect q →
           read_cell (cells self') q
           = Returns (CanvasCellContentType.Line, "x"%string))
        ∧ (¬ on_border rect q →
           read_cell (cells self') q = read_cell (cells self) q).
Proof.
  intros Hshape Htl Hbr.
  destruct (draw_points_effect (concat (map line_points (get_lines rect)))
              (saved self) Hshape) as (self' & Hrun & _ & _ & Hcells).
  { apply Forall_forall. intros q Hq%elem_of_rectangle_points.
    by apply (on_border_in_bounds self rect q). }
  exists self'. split.
  - unfold draw_rectangle. rewrite Htl, Hbr. cbn [orb].
    unfold then_, _save_state. fold (saved self).
    rewrite draw_lines_as_points by apply get_lines_have_points. exact Hrun.
  - intros q Hq. rewrite <- elem_of_rectangle_points. by apply Hcells.
Qed.

(** On a canvas reached from [Canvas(n, n)], [draw_rectangle] with two
    corners inside the canvas returns; the cells on the four sides, each side
    running from the first corner's coordinate up to the second's, are marked
    [(Line, 'x')] and every other cell is as before. *)
Theorem draw_rectangle_on_square_canvas (n : nat) (self : Canvas)
    (rect : Rectangle) :
  reachable n self →
  0 ≤ x (top_left_point rect) < Z.of_nat n →
  0 ≤ y (top_left_point rect) < Z.of_nat n →
  0 ≤ x (bottom_right_point rect) < Z.of_nat n →
  0 ≤ y (bottom_right_point rect) < Z.of_nat n →
  ∃ self',
    draw_rectangle rect self = (Returns tt, self')
    ∧ ∀ q, 0 ≤ x q < Z.of_nat n → 0 ≤ y q < Z.of_nat n →
        (on_border rect q →
           read_cell (cells self') q
           = Returns (CanvasCellContentType.Line, "x"%string))
        ∧ (¬ on_border rect q →
           read_cell (cells self') q = read_cell (cells self) q).
Proof.
  intros (Hw & Hh & [Hshape _])%reachable_well_formed Htx Hty Hbx Hby.
  destruct (draw_rectangle_well_shaped self rect Hshape)
    as (self' & Hrun & Hcells); [apply out_of_bound_false; lia..|].
  exists self'. split; [done|]. intros q Hqx Hqy. apply Hcells.
  apply out_of_bound_false. lia.
Qed.

Lemma draw_rectangle_on_square_canvas_witness :
  ∃ self',
    draw_rectangle (mkRectangle (mkPoint 0 0) (mkPoint 2 2)) (blank 3)
    = (Returns tt, self')
    ∧ read_cell (cells self') (mkPoint 1 1)
      = read_cell (cells (blank 3)) (mkPoint 1 1).
Proof.
  destruct (draw_rectangle_on_square_canvas 3 (blank 3)
              (mkRectangle (mkPoint 0 0) (mkPoint 2 2)))
    as (self' & Hrun & Hcells); [apply reach_init|cbn; lia..|].
  exists self'. split; [exact Hrun|].
  apply (Hcells (mkPoint 1 1)); [cbn; lia..|]. unfold on_border. cbn. lia.
Defined.

(** On any canvas, a rectangle whose first corner lies after the second one
    in both coordinates has four empty lines: [draw_rectangle] returns, saves
    the state and writes nothing. *)
Theorem draw_rectangle_reversed_writes_nothing (self : Canvas) (rect : Rectangle) :
  _point_is_out_of_bound self (top_left_point rect) = false →
  _point_is_out_of_bound self (bottom_right_point rect) = false →
  x (bottom_right_point rect) < x (top_left_point rect) →
  y (bottom_right_point rect) < y (top_left_point rect) →
  draw_rectangle rect self =
    (Returns tt,
     mkCanvas (width self) (height self) (cells self)
              (_previous_states self ++ [cells self])).
Proof.
  intros Htl Hbr Hx Hy.
  assert (Hnone : concat (map line_points (get_lines rect)) = []).
  { destruct (concat (map line_points (get_lines rect))) as [|q l] eqn:Hl; [done|].
    assert (Hq : on_border rect q).
    { apply elem_of_rectangle_points. rewrite Hl. by left. }
    unfold on_border in Hq. lia. }
  unfold draw_rectangle. rewrite Htl, Hbr. cbn [orb].
  unfold then_, _save_state.
  rewrite draw_lines_as_points by apply get_lines_have_points.
  by rewrite Hnone.
Qed.

Lemma draw_rectangle_reversed_writes_nothing_witness :
  draw_rectangle (mkRectangle (mkPoint 2 2) (mkPoint 0 0)) (blank 3)
  = (Returns tt, mkCanvas 3 3 (cells (blank 3)) [cells (blank 3)]).
Proof.
  apply (draw_rectangle_reversed_writes_nothing (blank 3)
           (mkRectangle (mkPoint 2 2) (mkPoint 0 0)));
    [reflexivity|reflexivity|cbn; lia|cbn; lia].
Defined.

(** ** Delete *)

Section sweep.
Variables (self0 : Canvas) (ty : CanvasCellContentType.t) (colour : string)
          (reset : bool) (start : Point).
Hypothesis start_in_bounds : _point_is_out_of_bound self0 start = false.
Hypothesis start_type : type_of (cells self0) start = Some ty.

(** What the loop writes into the cells it fills. *)
Let paint : Cell :=
  if reset then (CanvasCellContentType.Empty, colour) else (ty, colour).

#[local] Abbreviation sweep := (sweep_inv self0 ty paint start).

Lemma sweep_init : well_shaped self0 → sweep ∅ [start] self0.
Proof using start_in_bounds.
  intros Hshape. split.
  - apply same_frame_refl.
  - done.
  - intros q Hq. by apply not_elem_of_empty in Hq.
  - done.
  - intros q [Hq|Hq]; [by apply not_elem_of_empty in Hq|].
    apply list_elem_of_singleton in Hq as ->. auto.
  - intros r n Hr. by apply not_elem_of_empty in Hr.
  - right. by apply list_elem_of_singleton.
Qed.

(** The type read at a point taken from the queue is its type at the start
    of the loop, unless the loop has already painted that point. *)
Lemma sweep_type_read processed to_process self cur cty c :
  sweep processed to_process self →
  _point_is_out_of_bound self0 cur = false →
  read_cell (cells self) cur = Returns (cty, c) →
  (cty = ty → type_of (cells self0) cur = Some ty)
  ∧ (cty ≠ ty → type_of (cells self0) cur ≠ Some ty ∨ cur ∈ processed).
Proof.
  intros Hinv Hcur Hread.
  destruct (decide (cur ∈ processed ∧ type_of (cells self0) cur = Some ty))
    as [[Hp Hty]|Hno]; [by auto|].
  pose proof (sweep_untouched Hinv cur Hcur Hno) as Hsame.
  unfold type_of. rewrite <- Hsame, Hread. cbn.
  split; [by intros ->|]. intros Hne. left. congruence.
Qed.

Lemma sweep_skip processed to_process self cur rest :
  sweep processed to_process self →
  pop to_process = Some (cur, rest) →
  type_of (cells self0) cur ≠ Some ty ∨ cur ∈ processed →
  sweep ({[cur]} ∪ processed) rest self.
Proof.
  intros Hinv ->%pop_Some Hcur.
  assert (Hsub : ∀ q, q ∈ {[cur]} ∪ processed →
                      type_of (cells self0) q = Some ty → q ∈ processed).
  { intros q [->%elem_of_singleton|?]%elem_of_union Hq; [|done].
    by destruct Hcur. }
  assert (Hqueue : ∀ q, q ∈ processed ∨ q ∈ rest ++ [cur] →
                        q ∈ {[cur]} ∪ processed ∨ q ∈ rest).
  { intros q. rewrite elem_of_app, list_elem_of_singleton, elem_of_union,
      elem_of_singleton. tauto. }
  split.
  - apply Hinv.
  - apply Hinv.
  - intros q Hq Hq'. apply (sweep_painted Hinv); [by apply Hsub|done].
  - intros q Hq Hno. apply (sweep_untouched Hinv q Hq).
    intros [Hp Hq']. apply Hno. split; [|done]. apply elem_of_union. by right.
  - intros q Hq. apply (sweep_reached Hinv).
    rewrite elem_of_app, list_elem_of_singleton.
    destruct Hq as [[->%elem_of_singleton|?]%elem_of_union|?]; auto.
  - intros r n Hr Hr' Hadj Hn. apply Hqueue.
    apply (sweep_closed Hinv r n); [by apply Hsub|done..].
  - apply Hqueue, (sweep_start Hinv).
Qed.

Lemma sweep_paint processed to_process self cur rest cs :
  sweep processed to_process self →
  pop to_process = Some (cur, rest) →
  type_of (cells self0) cur = Some ty →
  write_cell (cells self) cur paint = Returns cs →
  sweep ({[cur]} ∪ processed)
    (foldl (enqueue (set_cells self cs) ({[cur]} ∪ processed)) rest (neighbours cur))
    (set_cells self cs).
Proof using start_in_bounds start_type.
  intros Hinv ->%pop_Some Hty Hwrite.
  assert (Hcur : _point_is_out_of_bound self0 cur = false
                 ∧ fill_region self0 ty start cur).
  { destruct (sweep_reached Hinv cur) as [Hb Hr].
    - right. apply elem_of_app. right. by apply list_elem_of_singleton.
    - split; [done|]. by apply reached_in_region. }
  destruct Hcur as [Hcurb Hcurr].
  pose proof (sweep_frame Hinv) as Hframe.
  pose proof (sweep_shape Hinv) as Hshape.
  assert (Hbound : ∀ q, _point_is_out_of_bound (set_cells self cs) q
                        = _point_is_out_of_bound self0 q).
  { intros q. apply out_of_bound_same_frame.
    eapply same_frame_trans; [exact Hframe|apply same_frame_set_cells]. }
  assert (Hbound' : ∀ q, _point_is_out_of_bound self q
                         = _point_is_out_of_bound self0 q).
  { intros q. by apply out_of_bound_same_frame. }
  destruct (write_cell_in_bounds self cur paint Hshape)
    as (cs' & Hwrite' & Hread & Hother); [by rewrite Hbound'|].
  rewrite Hwrite in Hwrite'. injection Hwrite' as <-.
  assert (Hqueue : ∀ q, q ∈ processed ∨ q ∈ rest ++ [cur] →
                        q ∈ {[cur]} ∪ processed ∨ q ∈ rest).
  { intros q. rewrite elem_of_app, list_elem_of_singleton, elem_of_union,
      elem_of_singleton. tauto. }
  split.
  - eapply same_frame_trans; [exact Hframe|apply same_frame_set_cells].
  - by eapply write_cell_shape.
  - intros q Hq Hq'. cbn. destruct (decide (q = cur)) as [->|Hne]; [done|].
    assert (q ∈ processed) as Hp.
    { apply elem_of_union in Hq as [Hq|Hq]; [|done].
      by apply elem_of_singleton in Hq. }
    rewrite Hother; [by apply (sweep_painted Hinv)| |done].
    rewrite Hbound'. apply (sweep_reached Hinv). by left.
  - intros q Hq Hno. cbn.
    assert (q ≠ cur) as Hne.
    { intros ->. apply Hno. split; [|done]. apply elem_of_union. left.
      by apply elem_of_singleton. }
    rewrite Hother; [|by rewrite Hbound'|done].
    apply (sweep_untouched Hinv q Hq).
    intros [Hp Hq']. apply Hno. split; [|done]. apply elem_of_union. by right.
  - intros q Hq.
    assert (Hold : q ∈ processed ∨ q ∈ rest ++ [cur] →
                   _point_is_out_of_bound self0 q = false
                   ∧ (q = start ∨ ∃ r, fill_region self0 ty start r ∧ adjacent r q))
      by apply (sweep_reached Hinv).
    rewrite elem_of_app, list_elem_of_singleton in Hold.
    rewrite elem_of_union, elem_of_singleton, elem_of_enqueue_all in Hq.
    destruct Hq as [[->|?]|[?|(Hn & _ & Hb)]]; [auto..|].
    rewrite Hbound in Hb. split; [done|]. right. exists cur.
    split; [done|]. by apply elem_of_neighbours.
  - intros r n Hr Hr' Hadj Hn.
    rewrite elem_of_enqueue_all.
    apply elem_of_union in Hr as [->%elem_of_singleton|Hr].
    + destruct (decide (n ∈ {[cur]} ∪ processed)) as [?|Hnp]; [by left|].
      right. right. rewrite Hbound. by rewrite elem_of_neighbours.
    + destruct (Hqueue n (sweep_closed Hinv r n Hr Hr' Hadj Hn)); auto.
  - rewrite elem_of_enqueue_all.
    destruct (Hqueue start (sweep_start Hinv)); auto.
Qed.

Lemma sweep_final processed self q :
  sweep processed [] self →
  _point_is_out_of_bound self0 q = false →
  (fill_region self0 ty start q → read_cell (cells self) q = Returns paint)
  ∧ (¬ fill_region self0 ty start q →
     read_cell (cells self) q = read_cell (cells self0) q).
Proof using start_in_bounds start_type.
  intros Hinv Hq. split.
  - intros Hreg.
    assert (q ∈ processed) as Hp.
    { clear Hq. induction Hreg as [|q n Hreg IH Hadj Hn Hty].
      - destruct (sweep_start Hinv) as [?|[]%elem_of_nil]. done.
      - apply fill_region_type in Hreg as [_ Hqty].
        destruct (sweep_closed Hinv q n IH Hqty Hadj Hn) as [?|[]%elem_of_nil].
        done. }
    apply (sweep_painted Hinv q Hp).
    by apply fill_region_type in Hreg as [_ ?].
  - intros Hno. apply (sweep_untouched Hinv q Hq).
    intros [Hp Hty]. apply Hno.
    destruct (sweep_reached Hinv q) as [_ Hr]; [by left|].
    by apply reached_in_region.
Qed.

Lemma _bucket_fill_loop_sweep fuel :
  ∀ processed to_process self r,
    sweep processed to_process self →
    _bucket_fill_loop fuel ty colour reset processed to_process self = Some r →
    r.1 = Returns tt ∧ ∃ processed', sweep processed' [] r.2.
Proof using start_in_bounds start_type.
  induction fuel as [|fuel IH]; intros processed to_process self r Hinv; cbn.
  - destruct (pop to_process) as [[cur rest]|] eqn:Hpop; [done|].
    intros [= <-]. apply pop_None in Hpop as ->. split; [done|]. by exists processed.
  - destruct (pop to_process) as [[cur rest]|] eqn:Hpop;
      [|intros [= <-]; apply pop_None in Hpop as ->; split; [done|]; by exists processed].
    assert (Hcur : _point_is_out_of_bound self0 cur = false).
    { apply (sweep_reached Hinv). right. apply pop_Some in Hpop as ->.
      apply elem_of_app. right. by apply list_elem_of_singleton. }
    assert (Hcur' : _point_is_out_of_bound self cur = false).
    { by rewrite (out_of_bound_same_frame self0 self cur (sweep_frame Hinv)). }
    destruct (read_cell_in_bounds self cur (sweep_shape Hinv) Hcur')
      as (col & [cty c] & _ & _ & Hread).
    destruct (sweep_type_read _ _ _ cur cty c Hinv Hcur Hread) as [Hsame Hdiff].
    rewrite Hread.
    case_bool_decide as Hty.
    + destruct (write_cell_in_bounds self cur paint (sweep_shape Hinv) Hcur')
        as (cs & Hwrite & _).
      match goal with
      | |- context [write_cell _ _ ?v] => change v with paint
      end.
      rewrite Hwrite. apply IH. eapply sweep_paint; eauto.
    + apply IH. eapply sweep_skip; eauto.
Qed.

End sweep.

Lemma delete_well_shaped self p :
  well_shaped self →
  _point_is_out_of_bound self p = false →
  ∃ ty c self',
    read_cell (cells self) p = Returns (ty, c)
    ∧ delete p self = Some (Returns tt, self')
    ∧ ∀ q, _point_is_out_of_bound self q = false →
        (fill_region self ty p q →
           read_cell (cells self') q
           = Returns (CanvasCellContentType.Empty, " "%string))
        ∧ (¬ fill_region self ty p q →
           read_cell (cells self') q = read_cell (cells self) q).
Proof.
  intros Hshape Hp.
  destruct (read_cell_in_bounds self p Hshape Hp) as (col & [ty c] & _ & _ & Hread).
  destruct (run_terminates (Delete p) self) as [[o self'] Hrun].
  pose proof Hrun as Hrun'.
  unfold run, delete in Hrun'. rewrite Hp in Hrun'.
  unfold _save_state, _bucket_fill in Hrun'. fold (saved self) in Hrun'.
  change (cells (saved self)) with (cells self) in Hrun'.
  rewrite Hread in Hrun'.
  assert (Hty : type_of (cells (saved self)) p = Some ty).
  { unfold type_of. cbn. by rewrite Hread. }
  destruct (_bucket_fill_loop_sweep (saved self) ty " " true p Hp Hty _ _ _ _ _
              (sweep_init (saved self) ty " " true p Hp Hshape) Hrun')
    as [Ho [processed Hinv]].
  cbn in Ho. subst o.
  exists ty, c, self'. split; [done|]. split; [done|].
  intros q Hq.
  destruct (sweep_final (saved self) ty " " true p Hp Hty processed self' q Hinv Hq)
    as [Hin Hout].
  rewrite !fill_region_saved in *. done.
Qed.

(** On a canvas reached from [Canvas(n, n)], [delete] from a point inside
    the canvas returns; the cells of the region of that point become
    [(Empty, ' ')], every other cell is as before. *)
Theorem delete_on_square_canvas (n : nat) (self : Canvas) (p : Point) :
  reachable n self →
  0 ≤ x p < Z.of_nat n → 0 ≤ y p < Z.of_nat n →
  ∃ ty c self',
    read_cell (cells self) p = Returns (ty, c)
    ∧ delete p self = Some (Returns tt, self')
    ∧ ∀ q, 0 ≤ x q < Z.of_nat n → 0 ≤ y q < Z.of_nat n →
        (fill_region self ty p q →
           read_cell (cells self') q
           = Returns (CanvasCellContentType.Empty, " "%string))
        ∧ (¬ fill_region self ty p q →
           read_cell (cells self') q = read_cell (cells self) q).
Proof.
  intros (Hw & Hh & [Hshape _])%reachable_well_formed Hx Hy.
  destruct (delete_well_shaped self p Hshape)
    as (ty & c & self' & Hread & Hrun & Hcells); [apply out_of_bound_false; lia|].
  exists ty, c, self'. split; [done|]. split; [done|].
  intros q Hqx Hqy. apply Hcells. apply out_of_bound_false. lia.
Qed.

Lemma delete_on_square_canvas_witness :
  ∃ ty c self',
    read_cell (cells (blank 3)) (mkPoint 1 1) = Returns (ty, c)
    ∧ delete (mkPoint 1 1) (blank 3) = Some (Returns tt, self').
Proof.
  destruct (delete_on_square_canvas 3 (blank 3) (mkPoint 1 1))
    as (ty & c & self' & Hread & Hrun & _).
  - apply reach_init.
  - cbn. lia.
  - cbn. lia.
  - by exists ty, c, self'.
Defined.

(** ** Rendering *)

Lemma str_app_assoc (a b c : string) : (a +:+ b) +:+ c = a +:+ (b +:+ c).
Proof.
  induction a as [|ch a IH]; [done|].
  change (String ch ((a +:+ b) +:+ c) = String ch (a +:+ (b +:+ c))).
  by rewrite IH.
Qed.

Lemma str_app_nil_r (a : string) : a +:+ EmptyString = a.
Proof.
  induction a as [|ch a IH]; [done|].
  change (String ch (a +:+ EmptyString) = String ch a). by rewrite IH.
Qed.

Lemma str_row_returns cs py xs :
  Forall (λ px, ∃ c, read_cell cs (mkPoint px py) = Returns c) xs →
  ∀ canvas_str,
    str_row cs py xs canvas_str
    = Returns (canvas_str +:+ join (map (λ px, colour_at cs (mkPoint px py)) xs)).
Proof.
  induction xs as [|px xs IH]; intros Hall canvas_str; cbn.
  - by rewrite str_app_nil_r.
  - apply Forall_cons in Hall as [[c Hc] Hall].
    unfold colour_at at 1. rewrite Hc. cbn.
    rewrite (IH Hall). by rewrite str_app_assoc.
Qed.

Lemma str_row_raises cs py xs1 px xs2 e :
  Forall (λ px, ∃ c, read_cell cs (mkPoint px py) = Returns c) xs1 →
  read_cell cs (mkPoint px py) = Raises e →
  ∀ canvas_str, str_row cs py (xs1 ++ px :: xs2) canvas_str = Raises e.
Proof.
  induction xs1 as [|px1 xs1 IH]; intros Hall Hraise canvas_str; cbn.
  - by rewrite Hraise.
  - apply Forall_cons in Hall as [[c Hc] Hall]. rewrite Hc. cbn. by apply IH.
Qed.

Lemma str_rows_returns self ys :
  Forall (λ py, Forall (λ px, ∃ c, read_cell (cells self) (mkPoint px py) = Returns c)
                       (range 0 (width self))) ys →
  ∀ canvas_str,
    str_rows self ys canvas_str
    = Returns (canvas_str +:+ join (map (text_row self) ys)).
Proof.
  induction ys as [|py ys IH]; intros Hall canvas_str; cbn.
  - by rewrite str_app_nil_r.
  - apply Forall_cons in Hall as [Hrow Hall].
    rewrite (str_row_returns _ _ _ Hrow). cbn. rewrite (IH Hall).
    unfold text_row. by rewrite !str_app_assoc.
Qed.

Lemma str_rows_raises self ys1 py ys2 e :
  Forall (λ py, Forall (λ px, ∃ c, read_cell (cells self) (mkPoint px py) = Returns c)
                       (range 0 (width self))) ys1 →
  (∀ canvas_str,
     str_row (cells self) py (range 0 (width self)) canvas_str = Raises e) →
  ∀ canvas_str, str_rows self (ys1 ++ py :: ys2) canvas_str = Raises e.
Proof.
  induction ys1 as [|py1 ys1 IH]; intros Hall Hraise canvas_str; cbn.
  - by rewrite Hraise.
  - apply Forall_cons in Hall as [Hrow Hall].
    rewrite (str_row_returns _ _ _ Hrow). cbn. by apply IH.
Qed.

Lemma Canvas_str_well_shaped self :
  well_shaped self →
  Canvas_str self =
  Returns (text_border self +:+ newline
           +:+ join (map (text_row self) (range 0 (height self)))
           +:+ text_border self).
Proof.
  intros Hshape. unfold Canvas_str.
  rewrite str_rows_returns.
  - cbn. unfold text_border. by rewrite !str_app_assoc.
  - apply Forall_forall. intros py Hpy%elem_of_range.
    apply Forall_forall. intros px Hpx%elem_of_range.
    destruct (read_cell_in_bounds self (mkPoint px py) Hshape)
      as (col & c & _ & _ & Hread); [apply out_of_bound_false; cbn; lia|].
    by exists c.
Qed.

(** On a canvas reached from [Canvas(n, n)], [__str__] returns: a line of
    [n] dashes between two spaces, then for [y] from [0] to [n - 1] the
    colours of the cells [(0, y)] to [(n - 1, y)] between two bars, then
    the line of dashes again, without a final line feed. *)
Theorem Canvas_str_on_square_canvas (n : nat) (self : Canvas) :
  reachable n self →
  Canvas_str self =
  Returns (text_border self +:+ newline
           +:+ join (map (text_row self) (range 0 (Z.of_nat n)))
           +:+ text_border self)
  ∧ text_border self = " " +:+ str_mul "-" (Z.of_nat n) +:+ " "
  ∧ ∀ py, text_row self py =
          "|" +:+ join (map (λ px, colour_at (cells self) (mkPoint px py))
                            (range 0 (Z.of_nat n)))
              +:+ "|" +:+ newline.
Proof.
  intros (Hw & Hh & [Hshape _])%reachable_well_formed.
  rewrite (Canvas_str_well_shaped self Hshape).
  unfold text_border, text_row. by rewrite Hw, Hh.
Qed.

Lemma Canvas_str_on_square_canvas_witness :
  Canvas_str (snd (draw_line (mkLine (mkPoint 0 1) (mkPoint 1 1)) (blank 2)))
  = Returns (" -- " +:+ newline +:+ "|  |" +:+ newline +:+ "|xx|" +:+ newline
             +:+ " -- ").
Proof.
  rewrite (proj1 (Canvas_str_on_square_canvas 2
                    (snd (draw_line (mkLine (mkPoint 0 1) (mkPoint 1 1)) (blank 2)))
                    (reach_call 2 (DrawLine (mkLine (mkPoint 0 1) (mkPoint 1 1)))
                       (blank 2) _ (reach_init 2) eq_refl))).
  reflexivity.
Defined.

Lemma range_split (k b : Z) :
  0 ≤ k < b → range 0 b = range 0 k ++ k :: range (k + 1) b.
Proof.
  intros Hk. unfold range.
  replace (Z.to_nat (b - 0)) with (Z.to_nat k + S (Z.to_nat (b - (k + 1))))%nat by lia.
  rewrite seq_app, map_app. f_equal; [by rewrite Z.sub_0_r|].
  change (0 + Z.to_nat k)%nat with (Z.to_nat k). cbn [seq map].
  f_equal; [lia|].
  apply list_eq. intros i. rewrite !list_lookup_fmap.
  destruct (decide (i < Z.to_nat (b - (k + 1)))%nat).
  - rewrite !lookup_seq_lt by lia. cbn. f_equal. lia.
  - by rewrite !lookup_seq_ge by lia.
Qed.

Lemma read_cell_replicate (h w : nat) (c : Cell) (p : Point) :
  0 ≤ x p < Z.of_nat h → 0 ≤ y p < Z.of_nat w →
  read_cell (replicate h (replicate w c)) p = Returns c.
Proof.
  intros Hx Hy. unfold read_cell.
  rewrite (getitem_nonneg _ _ (replicate w c)); cbn; [|lia|].
  - apply getitem_nonneg; [lia|]. apply lookup_replicate_2. lia.
  - apply lookup_replicate_2. lia.
Qed.

Lemma read_cell_replicate_out (h w : nat) (c : Cell) (p : Point) :
  Z.of_nat h ≤ x p ∨ (0 ≤ x p < Z.of_nat h ∧ Z.of_nat w ≤ y p) →
  read_cell (replicate h (replicate w c)) p = Raises IndexError.
Proof.
  intros [Hx|[Hx Hy]]; unfold read_cell.
  - unfold getitem. rewrite length_replicate, index_too_large by done. done.
  - rewrite (getitem_nonneg _ _ (replicate w c)); cbn; [|lia|].
    + unfold getitem. rewrite length_replicate, index_too_large by done. done.
    + apply lookup_replicate_2. lia.
Qed.

(** [Canvas(w, h)] with two positive dimensions that differ cannot be
    rendered: [__str__] raises [IndexError]. *)
Theorem Canvas_str_oblong_raises (w h : Z) :
  0 < w → 0 < h → w ≠ h →
  ∃ self,
    Canvas_init (VInt w) (VInt h) = Returns self
    ∧ Canvas_str self = Raises IndexError.
Proof.
  intros Hw Hh Hne. eexists. split; [apply Canvas_init_int|].
  assert (Hok : ∀ a b, 0 ≤ a < h → 0 ≤ b < w →
            ∃ c, read_cell
                   (replicate (Z.to_nat h)
                      (replicate (Z.to_nat w)
                         (CanvasCellContentType.Empty, " "%string)))
                   (mkPoint a b) = Returns c).
  { intros a b Ha Hb. eexists. apply read_cell_replicate; cbn; lia. }
  unfold Canvas_str. cbn [width height cells].
  destruct (decide (h < w)) as [Hlt|Hge].
  - rewrite (range_split 0 h) by lia.
    rewrite (str_rows_raises _ [] 0 _ IndexError); [done|by apply Forall_nil|].
    intros canvas_str. cbn [width cells].
    rewrite (range_split h w) by lia.
    apply str_row_raises.
    + apply Forall_forall. intros px Hpx%elem_of_range. apply Hok; lia.
    + apply read_cell_replicate_out. cbn. lia.
  - rewrite (range_split w h) by lia.
    rewrite (str_rows_raises _ (range 0 w) w _ IndexError); [done| |].
    + apply Forall_forall. intros py Hpy%elem_of_range.
      apply Forall_forall. intros px Hpx%elem_of_range. cbn [width cells] in *.
      apply Hok; lia.
    + intros canvas_str. cbn [width cells].
      rewrite (range_split 0 w) by lia.
      apply (str_row_raises _ _ []); [by apply Forall_nil|].
      apply read_cell_replicate_out. cbn. lia.
Qed.

Lemma Canvas_str_oblong_raises_witness :
  ∃ self,
    Canvas_init (VInt 2) (VInt 1) = Returns self
    ∧ Canvas_str self = Raises IndexError.
Proof. apply (Canvas_str_oblong_raises 2 1); lia. Defined.

(** ** How the calls compose *)

(** [bucket_fill] changes colours only: on a canvas reached from
    [Canvas(n, n)] it returns and every cell keeps its content type. *)
Theorem bucket_fill_keeps_types (n : nat) (self : Canvas) (p : Point)
    (colour : string) :
  reachable n self →
  0 ≤ x p < Z.of_nat n → 0 ≤ y p < Z.of_nat n →
  ∃ self',
    bucket_fill p colour self = Some (Returns tt, self')
    ∧ ∀ q, 0 ≤ x q < Z.of_nat n → 0 ≤ y q < Z.of_nat n →
        ∃ c c', read_cell (cells self) q = Returns c
          ∧ read_cell (cells self') q = Returns c'
          ∧ c'.1 = c.1.
Proof.
  intros (Hw & Hh & [Hshape _])%reachable_well_formed Hx Hy.
  assert (Hp : _point_is_out_of_bound self p = false)
    by (apply out_of_bound_false; lia).
  destruct (read_cell_in_bounds self p Hshape Hp) as (col & [ty c] & _ & _ & Hread).
  destruct (run_terminates (BucketFill p colour) self) as [[o self'] Hrun].
  pose proof Hrun as Hrun'.
  unfold run, bucket_fill in Hrun'. rewrite Hp in Hrun'.
  unfold _save_state, _bucket_fill in Hrun'. fold (saved self) in Hrun'.
  change (cells (saved self)) with (cells self) in Hrun'.
  rewrite Hread in Hrun'.
  assert (Hty : type_of (cells (saved self)) p = Some ty).
  { unfold type_of. cbn. by rewrite Hread. }
  destruct (_bucket_fill_loop_inv (saved self) ty colour p Hp Hty _ _ _ _ _
              (fill_inv_init (saved self) ty colour p Hp Hshape) Hrun')
    as [Ho [processed Hinv]].
  cbn in Ho. subst o.
  exists self'. split; [done|]. intros q Hqx Hqy.
  assert (Hq : _point_is_out_of_bound self q = false)
    by (apply out_of_bound_false; lia).
  pose proof (fill_inv_type (saved self) ty colour p _ _ _ q Hinv Hq) as Htypes.
  destruct (read_cell_in_bounds self q Hshape Hq) as (? & cq & _ & _ & Hcq).
  assert (Hq' : _point_is_out_of_bound self' q = false).
  { by rewrite (out_of_bound_same_frame (saved self) self' q (inv_frame Hinv)). }
  destruct (read_cell_in_bounds self' q (inv_shape Hinv) Hq') as (? & cq' & _ & _ & Hcq').
  exists cq, cq'. split; [done|]. split; [done|].
  unfold type_of in Htypes. cbn in Htypes. rewrite Hcq, Hcq' in Htypes.
  congruence.
Qed.

Lemma bucket_fill_keeps_types_witness :
  ∃ self', bucket_fill (mkPoint 0 0) "o" (blank 2) = Some (Returns tt, self').
Proof.
  destruct (bucket_fill_keeps_types 2 (blank 2) (mkPoint 0 0) "o")
    as (self' & Hrun & _); [apply reach_init|cbn; lia..|].
  by exists self'.
Defined.

(** Points that a chain [g f], [g (f + 1)], ..., [g t] of adjacent points
    of type [ty] inside the bounds links are in each other's region. *)
Lemma fill_region_along self ty (g : Z → Point) (f t s : Z) :
  (∀ j, f ≤ j ≤ t →
        _point_is_out_of_bound self (g j) = false
        ∧ type_of (cells self) (g j) = Some ty) →
  (∀ j, adjacent (g j) (g (j + 1)) ∧ adjacent (g (j + 1)) (g j)) →
  f ≤ s ≤ t →
  ∀ j, f ≤ j ≤ t → fill_region self ty (g s) (g j).
Proof.
  intros Hcells Hadj Hs.
  assert (Hgen : ∀ k : nat, ∀ j, f ≤ j ≤ t → Z.abs (j - s) ≤ Z.of_nat k →
                                 fill_region self ty (g s) (g j)).
  { induction k as [|k IH]; intros j Hj Hk.
    - assert (j = s) as -> by lia. by apply fill_start; apply Hcells.
    - destruct (decide (Z.abs (j - s) ≤ Z.of_nat k)) as [?|Hfar]; [by apply IH|].
      destruct (decide (s < j)) as [Hlt|Hge].
      + apply (fill_step _ _ _ (g (j - 1))); [apply IH; lia| |apply Hcells; lia..].
        replace j with (j - 1 + 1) at 2 by lia. apply Hadj.
      + apply (fill_step _ _ _ (g (j + 1))); [apply IH; lia| |apply Hcells; lia..].
        apply Hadj. }
  intros j Hj. apply (Hgen (Z.to_nat (Z.abs (j - s)))); [done|lia].
Qed.

(** Drawing a line on the blank [Canvas(n, n)] and then deleting from any
    point of that line gives back a canvas on which every cell reads
    [(Empty, ' ')]. *)
Theorem delete_erases_drawn_line (n : nat) (line : Line) (p : Point) :
  0 ≤ x (from_point line) < Z.of_nat n → 0 ≤ y (from_point line) < Z.of_nat n →
  0 ≤ x (to_point line) < Z.of_nat n → 0 ≤ y (to_point line) < Z.of_nat n →
  on_line line p →
  ∃ self1 self2,
    draw_line line (blank n) = (Returns tt, self1)
    ∧ delete p self1 = Some (Returns tt, self2)
    ∧ ∀ q, 0 ≤ x q < Z.of_nat n → 0 ≤ y q < Z.of_nat n →
        read_cell (cells self2) q
        = Returns (CanvasCellContentType.Empty, " "%string).
Proof.
  intros Hfx Hfy Htx Hty Hp.
  assert (Haxis : x (from_point line) = x (to_point line)
                  ∨ y (from_point line) = y (to_point line))
    by (unfold on_line in Hp; lia).
  destruct (draw_line_well_shaped (blank n) line (proj1 (blank_well_formed n)))
    as (self1 & Hdraw & Hcells1); [apply out_of_bound_false; cbn; lia..|done|].
  assert (Hreach : reachable n self1).
  { apply (reach_call n (DrawLine line) (blank n) (Returns tt, self1));
      [apply reach_init|]. cbn. by rewrite Hdraw. }
  assert (Hpb : 0 ≤ x p < Z.of_nat n ∧ 0 ≤ y p < Z.of_nat n)
    by (unfold on_line in Hp; lia).
  destruct (reachable_well_formed n self1 Hreach) as (Hw1 & Hh1 & _).
  assert (Hin : ∀ q, 0 ≤ x q < Z.of_nat n → 0 ≤ y q < Z.of_nat n →
                     _point_is_out_of_bound (blank n) q = false
                     ∧ _point_is_out_of_bound self1 q = false).
  { intros q Hqx Hqy. rewrite !out_of_bound_false, Hw1, Hh1. cbn. lia. }
  assert (Hline : ∀ q, on_line line q →
            _point_is_out_of_bound self1 q = false
            ∧ type_of (cells self1) q = Some CanvasCellContentType.Line).
  { intros q Hq.
    assert (0 ≤ x q < Z.of_nat n ∧ 0 ≤ y q < Z.of_nat n) as [Hqx Hqy]
      by (unfold on_line in Hq; lia).
    destruct (Hin q Hqx Hqy) as [Hb Hb1]. split; [done|].
    unfold type_of. by rewrite (proj1 (Hcells1 q Hb) Hq). }
  destruct (reachable_well_formed n self1 Hreach) as (_ & _ & [Hshape1 _]).
  destruct (delete_well_shaped self1 p Hshape1)
    as (ty & c & self2 & Hread & Hdel & Hcells2); [by apply Hline|].
  assert (ty = CanvasCellContentType.Line) as ->.
  { destruct (Hline p Hp) as [_ Hty']. unfold type_of in Hty'.
    rewrite Hread in Hty'. cbn in Hty'. congruence. }
  exists self1, self2. split; [done|]. split; [done|].
  intros q Hqx Hqy. destruct (Hin q Hqx Hqy) as [Hb Hb1].
  destruct (Hcells2 q Hb1) as [Hreg Hnot].
  destruct (Hcells1 q Hb) as [Hon Hoff].
  assert (Hconn : on_line line q →
                  fill_region self1 CanvasCellContentType.Line p q).
  { intros Hq. destruct line as [[fx fy] [tx ty]], p as [px py], q as [qx qy].
    unfold on_line in Hp, Hq, Hline. cbn in *.
    destruct (decide (fx = tx)) as [->|Hx].
    - assert (px = tx ∧ qx = tx) as [-> ->] by lia.
      apply (fill_region_along self1 _ (λ j, mkPoint tx j) (Z.min fy py) (Z.max ty py) py);
        [|unfold adjacent; cbn; lia|lia|lia].
      intros j Hj. apply Hline. cbn. lia.
    - assert (fy = ty) as -> by lia.
      assert (py = ty ∧ qy = ty) as [-> ->] by lia.
      apply (fill_region_along self1 _ (λ j, mkPoint j ty) (Z.min fx px) (Z.max tx px) px);
        [|unfold adjacent; cbn; lia|lia|lia].
      intros j Hj. apply Hline. cbn. lia. }
  assert (Hblank : read_cell (cells (blank n)) q
                   = Returns (CanvasCellContentType.Empty, " "%string))
    by (apply read_cell_replicate; lia).
  destruct (decide (on_line line q)) as [Hq|Hq].
  - apply Hreg. by apply Hconn.
  - rewrite Hnot.
    + by rewrite (Hoff Hq).
    + intros [_ Hty']%fill_region_type. unfold type_of in Hty'.
      rewrite (Hoff Hq), Hblank in Hty'. done.
Qed.

Lemma delete_erases_drawn_line_witness :
  ∃ self1 self2,
    draw_line (mkLine (mkPoint 1 0) (mkPoint 1 2)) (blank 3) = (Returns tt, self1)
    ∧ delete (mkPoint 1 1) self1 = Some (Returns tt, self2)
    ∧ read_cell (cells self2) (mkPoint 1 2)
      = Returns (CanvasCellContentType.Empty, " "%string).
Proof.
  destruct (delete_erases_drawn_line 3 (mkLine (mkPoint 1 0) (mkPoint 1 2)) (mkPoint 1 1))
    as (self1 & self2 & Hdraw & Hdel & Hcells); [cbn; lia..|left; cbn; lia|].
  exists self1, self2. split; [done|]. split; [done|].
  apply Hcells; cbn; lia.
Defined.

Lemma fill_region_trans self ty p q r :
  fill_region self ty p q → fill_region self ty q r → fill_region self ty p r.
Proof.
  intros Hpq Hqr. induction Hqr as [|r n Hqr IH Hadj Hn Hty]; [done|].
  by eapply fill_step.
Qed.

(** Inside a box of cells of one type, every point is in the region of every
    other. *)
Lemma fill_region_box self ty (x0 x1 y0 y1 : Z) (p q : Point) :
  (∀ r, x0 ≤ x r ≤ x1 → y0 ≤ y r ≤ y1 →
        _point_is_out_of_bound self r = false
        ∧ type_of (cells self) r = Some ty) →
  x0 ≤ x p ≤ x1 → y0 ≤ y p ≤ y1 →
  x0 ≤ x q ≤ x1 → y0 ≤ y q ≤ y1 →
  fill_region self ty p q.
Proof.
  intros Hbox Hpx Hpy Hqx Hqy. destruct p as [px py], q as [qx qy]. cbn in *.
  apply (fill_region_trans _ _ _ (mkPoint qx py)).
  - apply (fill_region_along self ty (λ j, mkPoint j py) x0 x1 px);
      [|unfold adjacent; cbn; lia|lia|lia].
    intros j Hj. apply Hbox; cbn; lia.
  - apply (fill_region_along self ty (λ j, mkPoint qx j) y0 y1 py);
      [|unfold adjacent; cbn; lia|lia|lia].
    intros j Hj. apply Hbox; cbn; lia.
Qed.

(** On the blank [Canvas(n, n)], [bucket_fill] from any point of the canvas
    paints every cell [(Empty, colour)]. *)
Theorem bucket_fill_blank_paints_all (n : nat) (p : Point) (colour : string) :
  0 ≤ x p < Z.of_nat n → 0 ≤ y p < Z.of_nat n →
  ∃ self',
    bucket_fill p colour (blank n) = Some (Returns tt, self')
    ∧ ∀ q, 0 ≤ x q < Z.of_nat n → 0 ≤ y q < Z.of_nat n →
        read_cell (cells self') q
        = Returns (CanvasCellContentType.Empty, colour).
Proof.
  intros Hx Hy.
  destruct (bucket_fill_paints_region (blank n) p colour (proj1 (blank_well_formed n)))
    as (ty & c & self' & Hread & Hrun & _ & _ & Hcells);
    [apply out_of_bound_false; cbn; lia|].
  assert (Hblank : ∀ q, 0 ≤ x q < Z.of_nat n → 0 ≤ y q < Z.of_nat n →
            read_cell (cells (blank n)) q
            = Returns (CanvasCellContentType.Empty, " "%string)).
  { intros q Hqx Hqy. by apply read_cell_replicate. }
  rewrite Hblank in Hread by done. injection Hread as <- <-.
  exists self'. split; [done|]. intros q Hqx Hqy.
  apply (Hcells q); [cbn; lia|].
  apply (fill_region_box _ _ 0 (Z.of_nat n - 1) 0 (Z.of_nat n - 1)); [|lia..].
  intros r Hrx Hry. split; [apply out_of_bound_false; cbn; lia|].
  unfold type_of. rewrite Hblank by lia. done.
Qed.

Lemma bucket_fill_blank_paints_all_witness :
  ∃ self',
    bucket_fill (mkPoint 1 2) "o" (blank 3) = Some (Returns tt, self')
    ∧ read_cell (cells self') (mkPoint 0 0)
      = Returns (CanvasCellContentType.Empty, "o"%string).
Proof.
  destruct (bucket_fill_blank_paints_all 3 (mkPoint 1 2) "o")
    as (self' & Hrun & Hcells); [cbn; lia..|].
  exists self'. split; [done|]. apply Hcells; cbn; lia.
Defined.

(** A fill stops at the lines: after a rectangle is drawn on the blank
    [Canvas(n, n)], [bucket_fill] from a point strictly inside it paints the
    cells strictly inside [(Empty, colour)], leaves the border
    [(Line, 'x')] and the cells outside [(Empty, ' ')]. *)
Theorem bucket_fill_inside_rectangle (n : nat) (rect : Rectangle) (p : Point)
    (colour : string) :
  0 ≤ x (top_left_point rect) → 0 ≤ y (top_left_point rect) →
  x (bottom_right_point rect) < Z.of_nat n →
  y (bottom_right_point rect) < Z.of_nat n →
  x (top_left_point rect) < x p < x (bottom_right_point rect) →
  y (top_left_point rect) < y p < y (bottom_right_point rect) →
  ∃ self1 self2,
    draw_rectangle rect (blank n) = (Returns tt, self1)
    ∧ bucket_fill p colour self1 = Some (Returns tt, self2)
    ∧ ∀ q, 0 ≤ x q < Z.of_nat n → 0 ≤ y q < Z.of_nat n →
        read_cell (cells self2) q =
        Returns
          (if bool_decide (x (top_left_point rect) < x q < x (bottom_right_point rect)
                           ∧ y (top_left_point rect) < y q < y (bottom_right_point rect))
           then (CanvasCellContentType.Empty, colour)
           else if bool_decide (on_border rect q)
                then (CanvasCellContentType.Line, "x"%string)
                else (CanvasCellContentType.Empty, " "%string)).
Proof.
  intros Hax Hay Hcx Hcy Hpx Hpy.
  destruct (draw_rectangle_well_shaped (blank n) rect (proj1 (blank_well_formed n)))
    as (self1 & Hdraw & Hcells1); [apply out_of_bound_false; cbn; lia..|].
  assert (Hreach : reachable n self1).
  { apply (reach_call n (DrawRectangle rect) (blank n) (Returns tt, self1));
      [apply reach_init|]. cbn. by rewrite Hdraw. }
  destruct (reachable_well_formed n self1 Hreach) as (Hw1 & Hh1 & [Hshape1 _]).
  assert (Hblank : ∀ q, 0 ≤ x q < Z.of_nat n → 0 ≤ y q < Z.of_nat n →
            read_cell (cells (blank n)) q
            = Returns (CanvasCellContentType.Empty, " "%string)).
  { intros q Hqx Hqy. by apply read_cell_replicate. }
  assert (Hread1 : ∀ q, 0 ≤ x q < Z.of_nat n → 0 ≤ y q < Z.of_nat n →
            read_cell (cells self1) q =
            Returns (if bool_decide (on_border rect q)
                     then (CanvasCellContentType.Line, "x"%string)
                     else (CanvasCellContentType.Empty, " "%string))).
  { intros q Hqx Hqy. destruct (Hcells1 q) as [Hon Hoff];
      [apply out_of_bound_false; cbn; lia|].
    case_bool_decide; [by apply Hon|]. rewrite Hoff by done. by apply Hblank. }
  destruct (bucket_fill_paints_region self1 p colour Hshape1)
    as (ty & c & self2 & Hread & Hrun & _ & _ & Hcells2);
    [apply out_of_bound_false; lia|].
  rewrite Hread1 in Hread by lia.
  rewrite bool_decide_eq_false_2 in Hread by (unfold on_border; lia).
  injection Hread as <- <-.
  exists self1, self2. split; [done|]. split; [done|].
  intros q Hqx Hqy. destruct (Hcells2 q) as [Hreg Hnot]; [lia|].
  case_bool_decide as Hinside.
  - apply Hreg.
    apply (fill_region_box _ _ (x (top_left_point rect) + 1)
             (x (bottom_right_point rect) - 1)
             (y (top_left_point rect) + 1) (y (bottom_right_point rect) - 1));
      [|lia..].
    intros r Hrx Hry. split; [apply out_of_bound_false; lia|].
    unfold type_of. rewrite Hread1 by lia.
    rewrite bool_decide_eq_false_2 by (unfold on_border; lia). done.
  - rewrite Hnot; [by apply Hread1|].
    intros Hregion. apply Hinside. clear Hreg Hnot Hinside Hqx Hqy.
    induction Hregion as [|q r Hregion IH Hadj Hr Hty]; [lia|].
    apply out_of_bound_false in Hr. rewrite Hw1, Hh1 in Hr.
    unfold type_of in Hty. rewrite Hread1 in Hty by lia.
    case_bool_decide as Hborder; [done|].
    unfold on_border in Hborder. unfold adjacent in Hadj. lia.
Qed.

Lemma bucket_fill_inside_rectangle_witness :
  ∃ self1 self2,
    draw_rectangle (mkRectangle (mkPoint 0 0) (mkPoint 2 2)) (blank 4)
    = (Returns tt, self1)
    ∧ bucket_fill (mkPoint 1 1) "o" self1 = Some (Returns tt, self2)
    ∧ read_cell (cells self2) (mkPoint 1 1)
      = Returns (CanvasCellContentType.Empty, "o"%string)
    ∧ read_cell (cells self2) (mkPoint 3 3)
      = Returns (CanvasCellContentType.Empty, " "%string).
Proof.
  destruct (bucket_fill_inside_rectangle 4
              (mkRectangle (mkPoint 0 0) (mkPoint 2 2)) (mkPoint 1 1) "o")
    as (self1 & self2 & Hdraw & Hrun & Hcells); [cbn; lia..|].
  exists self1, self2. split; [done|]. split; [done|]. split.
  - apply (Hcells (mkPoint 1 1)); cbn; lia.
  - apply (Hcells (mkPoint 3 3)); cbn; lia.
Defined.
